(** * adafruit_rsa.key: key generation, blinding and PKCS#1 decoding

    A shallow embedding of [adafruit_rsa/key.py].  Python integers are [Z],
    [//] and [%] are floor division and floor modulus ([Z.div], [Z.modulo])
    with the division-by-zero exception written out, exceptions are values
    of [exn], and the module-level logger together with the state of the
    random source is threaded explicitly through the [M] monad. *)

From Stdlib Require Import ZArith Zdivisibility List Permutation Finite Lia.
From Stdlib Require Import String Ascii DecimalString.
From stdpp Require Import gmap strings sorting.

Local Open Scope Z_scope.

(** ** Python values and exceptions *)

Module Py.

(** The exceptions the module raises or lets through.
    [NotRelativePrimeError] is a subclass of [ValueError]. *)
Inductive exn : Type :=
| ValueError (msg : string)
| NotRelativePrimeError (a b d : Z) (msg : string)
| ZeroDivisionError
| ArithmeticError (msg : string)
| NotImplementedError (msg : string)
| TypeError (msg : string)
| IndexError.

Inductive result (A : Type) : Type :=
| Ok (a : A)
| Raise (e : exn).
Global Arguments Ok {A} a.
Global Arguments Raise {A} e.

Definition rbind {A B} (r : result A) (k : A -> result B) : result B :=
  match r with
  | Ok a => k a
  | Raise e => Raise e
  end.

(** Modelled from the spec: the class [NotRelativePrimeError] is declared in
    [adafruit_rsa.common], which is not part of the sources at hand.  "On
    coprimality failure, retry with a fresh prime pair": the handler
    [except ValueError] of [gen_keys] catches it, as a subclass. *)
Definition is_ValueError (e : exn) : bool :=
  match e with
  | ValueError _ | NotRelativePrimeError _ _ _ _ => true
  | _ => false
  end.

(** [a % b] *)
Definition py_mod (a b : Z) : result Z :=
  if b =? 0 then Raise ZeroDivisionError else Ok (a mod b).

(** ["%i" % z], ["%d" % z] and [str] of an integer *)
Definition fmt_int (z : Z) : string :=
  NilZero.string_of_int (Z.to_int z).

(** [sorted] on a list of strings *)
Definition str_le (s1 s2 : string) : Prop := String.leb s1 s2 = true.

#[global] Instance str_le_dec s1 s2 : Decision (str_le s1 s2).
Proof. unfold str_le. apply _. Defined.

Definition sorted (l : list string) : list string := merge_sort str_le l.

(** [sep.join(l)] *)
Definition join (sep : string) (l : list string) : string :=
  String.concat sep l.

End Py.
Export Py.

Declare Scope result_scope.
Delimit Scope result_scope with result.
Notation "x <- r ;; k" := (rbind r (fun x => k))
  (at level 100, r at next level, right associativity) : result_scope.

(** ** adafruit_rsa.common *)

Module Common.
Local Open Scope result_scope.

(** Modelled from the spec: [adafruit_rsa.common.bit_size] is not part of
    the sources at hand.  "Number of bits in the binary representation of
    a non-negative integer"; the magnitude is taken for a negative one. *)
Definition bit_size (num : Z) : Z :=
  if num =? 0 then 0 else Z.log2 (Z.abs num) + 1.

(** Modelled from the spec: the loop of the "extended Euclidean algorithm"
    behind [adafruit_rsa.common.inverse].  Its invariant is
    [a = oa * lx + ob * ly] and [b = oa * x + ob * y]. *)
Fixpoint extended_gcd_loop (fuel : nat) (a b x lx y ly : Z) : Z * Z * Z :=
  match fuel with
  | O => (a, lx, ly)
  | S fuel' =>
      if b =? 0 then (a, lx, ly)
      else
        let q := a / b in
        extended_gcd_loop fuel' b (a mod b) (lx - q * x) x (ly - q * y) y
  end.

(** Modelled from the spec: [adafruit_rsa.common.extended_gcd] is not part
    of the sources at hand.  "Extended Euclidean algorithm": returns
    [(g, i, j)] with [g = gcd a b >= 0] and [a * i + b * j = g]. *)
Definition extended_gcd (a b : Z) : Z * Z * Z :=
  let '(g, i, j) := extended_gcd_loop (S (Z.abs_nat b)) a b 0 1 1 0 in
  if g <? 0 then (- g, - i, - j) else (g, i, j).

(** Modelled from the spec: [adafruit_rsa.common.inverse] is not part of
    the sources at hand.  "mod_inverse(a, m): extended Euclidean
    algorithm; fails with NotInvertibleError carrying the GCD divisor when
    gcd(a, m) != 1"; the inverse is returned reduced modulo [n]. *)
Definition inverse (x n : Z) : result Z :=
  let '(divider, inv, _) := extended_gcd x n in
  if divider =? 1 then Ok (inv mod n)
  else Raise (NotRelativePrimeError x n divider
                (fmt_int x +:+ " and " +:+ fmt_int n
                 +:+ " are not relatively prime, divider=" +:+ fmt_int divider)).

End Common.

(** ** adafruit_rsa.core *)

Module Core.
Local Open Scope result_scope.

(** Modelled from the spec: "binary exponentiation", along the bits of the
    exponent, every intermediate product reduced modulo [m]. *)
Fixpoint pow_mod_pos (x : Z) (e : positive) (m : Z) : Z :=
  match e with
  | xH => x mod m
  | xO e' => let y := pow_mod_pos x e' m in (y * y) mod m
  | xI e' => let y := pow_mod_pos x e' m in (x * ((y * y) mod m)) mod m
  end.

(** Modelled from the spec: [adafruit_rsa.core.fast_pow] is not part of the
    sources at hand.  "mod_pow(base, exponent, modulus): fails if
    modulus <= 0; returns base^exponent mod modulus using binary
    exponentiation".  A negative exponent is a contract violation. *)
Definition fast_pow (x e m : Z) : result Z :=
  if m <=? 0 then Raise (ArithmeticError "modulus must be positive")
  else match e with
       | Z0 => Ok (1 mod m)
       | Zpos e' => Ok (pow_mod_pos x e' m)
       | Zneg _ => Raise (ArithmeticError "negative exponent")
       end.

(** Modelled from the spec: [adafruit_rsa.core.decrypt_int] is not part of
    the sources at hand.  "decrypts with raw mod_pow(blinded, d, n)". *)
Definition decrypt_int (cyphertext dkey n : Z) : result Z :=
  fast_pow cyphertext dkey n.

(** Modelled from the spec: [adafruit_rsa.core.encrypt_int] is not part of
    the sources at hand.  "encrypt_raw(message): mod_pow(message, e, n)". *)
Definition encrypt_int (message ekey n : Z) : result Z :=
  fast_pow message ekey n.

End Core.

(** ** The logger and the random source: explicit state *)

Module Effects.

(** adafruit_logging levels *)
Definition DEBUG : Z := 10.
Definition INFO : Z := 20.

(** [rng] is the hidden state of the random source behind
    [adafruit_rsa.prime.getprime] and [adafruit_rsa.randnum.randint];
    [log_level] and [log_calls] are the module-level logger [log]: its
    threshold, and the calls made on it (level and message), oldest first. *)
Record world (S : Type) : Type := World {
  rng : S;
  log_level : Z;
  log_calls : list (Z * string)
}.
Global Arguments World {S} _ _ _.
Global Arguments rng {S} _.
Global Arguments log_level {S} _.
Global Arguments log_calls {S} _.

(** A computation either returns or raises, in a new world; [None] stands
    for a loop that has not finished within the fuel it was given. *)
Definition M (S A : Type) : Type := world S -> option (result A * world S).

Definition ret {S A} (a : A) : M S A := fun w => Some (Ok a, w).
Definition raise {S A} (e : exn) : M S A := fun w => Some (Raise e, w).
Definition lift {S A} (r : result A) : M S A := fun w => Some (r, w).
Definition out_of_fuel {S A} : M S A := fun _ => None.

Definition bind {S A B} (m : M S A) (k : A -> M S B) : M S B :=
  fun w =>
    match m w with
    | Some (Ok a, w') => k a w'
    | Some (Raise e, w') => Some (Raise e, w')
    | None => None
    end.

(** [log.debug(msg)] *)
Definition log_debug {S} (msg : string) : M S unit :=
  fun w => Some (Ok tt, World (rng w) (log_level w) (log_calls w ++ [(DEBUG, msg)])).

(** [log.setLevel(lvl)] *)
Definition log_setLevel {S} (lvl : Z) : M S unit :=
  fun w => Some (Ok tt, World (rng w) lvl (log_calls w)).

End Effects.
Export Effects.

Declare Scope M_scope.
Delimit Scope M_scope with M.
Notation "x <- m ;; k" := (bind m (fun x => k))
  (at level 100, m at next level, right associativity) : M_scope.
Notation "m ;;; k" := (bind m (fun _ => k))
  (at level 100, right associativity) : M_scope.

(** ** adafruit_rsa.key *)

Definition bytes : Type := list Byte.byte.

Definition DEFAULT_EXPONENT : Z := 65537.

(** *** class AbstractKey *)

Module AbstractKey.
Import Common Core.
Local Open Scope result_scope.

(** The attributes [n] and [e] every key has. *)
Class t (K : Type) : Type := {
  n : K -> Z;
  e : K -> Z
}.

(** The two save methods a subclass implements. *)
Class Pkcs1 (K : Type) : Type := {
  _save_pkcs1_pem : K -> result bytes;
  _save_pkcs1_der : K -> result bytes
}.

Section Methods.
(** [repr] of a string, as ["%r"] prints it. *)
Variable repr : string -> string.
Context {K : Type} `{t K} `{Pkcs1 K}.

Definition load_pkcs1 (keyfile : bytes) (format : string) : result K :=
  Raise (NotImplementedError
           "Loading PEM Files not supported by this CircuitPython library.").

Definition _assert_format_exists {A : Type}
    (file_format : string) (methods : gmap string A) : result A :=
  match methods !! file_format with
  | Some method => Ok method
  | None =>
      let formats := join ", " (sorted ((map_to_list methods).*1)) in
      Raise (ValueError ("Unsupported format: " +:+ repr file_format
                         +:+ ", try one of " +:+ formats))
  end.

Definition save_pkcs1 (self : K) (format : string) : result bytes :=
  let methods : gmap string (unit -> result bytes) :=
    <["DER" := fun _ => _save_pkcs1_der self]>
      (<["PEM" := fun _ => _save_pkcs1_pem self]> ∅) in
  method <- _assert_format_exists format methods ;;
  method tt.

Definition blind (self : K) (message r : Z) : result Z :=
  y <- fast_pow r (e self) (n self) ;;
  py_mod (message * y) (n self).

Definition unblind (self : K) (blinded r : Z) : result Z :=
  i <- inverse r (n self) ;;
  py_mod (i * blinded) (n self).

End Methods.
End AbstractKey.

(** *** class PublicKey(AbstractKey) *)

Module PublicKey.
Local Open Scope result_scope.

Record t : Type := mk { n : Z; e : Z }.

Definition __init__ (n e : Z) : t := mk n e.

Definition __getstate__ (self : t) : Z * Z := (n self, e self).

Definition __setstate__ (self : t) (state : Z * Z) : t :=
  let '(n, e) := state in mk n e.

Definition __eq__ (self other : t) : bool :=
  (n self =? n other) && (e self =? e other).

#[global] Instance key : AbstractKey.t t := {|
  AbstractKey.n := n;
  AbstractKey.e := e
|}.

Section Codec.
(** pyasn1's DER encoder on a sequence of integers, and
    [adafruit_rsa.pem.save_pem]: libraries outside [key.py]. *)
Variable der_encode : list Z -> result bytes.
Variable save_pem : bytes -> string -> result bytes.

Definition _save_pkcs1_der (self : t) : result bytes :=
  der_encode [n self; e self].

Definition _save_pkcs1_pem (self : t) : result bytes :=
  der <- _save_pkcs1_der self ;;
  save_pem der "RSA PUBLIC KEY".

Definition pkcs1 : AbstractKey.Pkcs1 t := {|
  AbstractKey._save_pkcs1_pem := _save_pkcs1_pem;
  AbstractKey._save_pkcs1_der := _save_pkcs1_der
|}.

(** pyasn1's DER decoder with [asn1Spec=AsnPubKey()], yielding the
    components [modulus] and [publicExponent]; the decoder with
    [asn1Spec=OpenSSLPubKey()], yielding the arcs of [header.oid] and the
    bytes of [key]; and [adafruit_rsa.pem.load_pem]: libraries outside
    [key.py]. *)
Variable der_decode : bytes -> result (Z * Z).
Variable der_decode_openssl : bytes -> result (list Z * bytes).
Variable load_pem : bytes -> string -> result bytes.

Definition _load_pkcs1_der (keyfile : bytes) : result t :=
  priv <- der_decode keyfile ;;
  let '(modulus, publicExponent) := priv in
  Ok (__init__ modulus publicExponent).

Definition _load_pkcs1_pem (keyfile : bytes) : result t :=
  der <- load_pem keyfile "RSA PUBLIC KEY" ;;
  _load_pkcs1_der der.

(** [univ.ObjectIdentifier("1.2.840.113549.1.1.1")] *)
Definition rsa_encryption_oid : list Z := [1; 2; 840; 113549; 1; 1; 1].

Definition load_pkcs1_openssl_der (keyfile : bytes) : result t :=
  keyinfo <- der_decode_openssl keyfile ;;
  let '(oid, key) := keyinfo in
  if negb (bool_decide (oid = rsa_encryption_oid)) then
    Raise (TypeError "This is not a DER-encoded OpenSSL-compatible public key")
  else _load_pkcs1_der (drop 1 key).

Definition load_pkcs1_openssl_pem (keyfile : bytes) : result t :=
  der <- load_pem keyfile "PUBLIC KEY" ;;
  load_pkcs1_openssl_der der.
End Codec.
End PublicKey.

(** *** class PrivateKey(AbstractKey) *)

Module PrivateKey.
Import Common Core.

Record t : Type := mk {
  n : Z; e : Z; d : Z; p : Z; q : Z;
  exp1 : Z; exp2 : Z; coef : Z
}.

Definition __init__ (n e d p q : Z) : result t :=
  (exp1 <- py_mod d (p - 1) ;;
   exp2 <- py_mod d (q - 1) ;;
   coef <- inverse q p ;;
   Ok (mk n e d p q exp1 exp2 coef))%result.

Definition __getstate__ (self : t) : Z * Z * Z * Z * Z * Z * Z * Z :=
  (n self, e self, d self, p self, q self, exp1 self, exp2 self, coef self).

Definition __setstate__ (self : t)
    (state : Z * Z * Z * Z * Z * Z * Z * Z) : t :=
  let '(n, e, d, p, q, exp1, exp2, coef) := state in
  mk n e d p q exp1 exp2 coef.

Definition __eq__ (self other : t) : bool :=
  (n self =? n other) && (e self =? e other) && (d self =? d other)
  && (p self =? p other) && (q self =? q other)
  && (exp1 self =? exp1 other) && (exp2 self =? exp2 other)
  && (coef self =? coef other).

(** [cls( *as_ints )]: the constructor takes exactly five arguments. *)
Definition construct (as_ints : list Z) : result t :=
  match as_ints with
  | [n; e; d; p; q] => __init__ n e d p q
  | _ => Raise (TypeError "__init__() takes 6 positional arguments")
  end.

(** [exp1, exp2, coef = ...]: unpacking needs exactly three values. *)
Definition unpack3 (l : list Z) : result (Z * Z * Z) :=
  match l with
  | [a; b; c] => Ok (a, b, c)
  | _ => Raise (ValueError "wrong number of values to unpack")
  end.

(** [priv[i]] *)
Definition index (priv : list Z) (i : nat) : result Z :=
  match priv !! i with
  | Some x => Ok x
  | None => Raise IndexError
  end.

(** [priv[a:b]] for [0 <= a <= b] *)
Definition slice (a b : nat) (priv : list Z) : list Z :=
  take (b - a) (drop a priv).

#[global] Instance key : AbstractKey.t t := {|
  AbstractKey.n := n;
  AbstractKey.e := e
|}.

Section Codec.
Context {S : Type}.
(** pyasn1's DER decoder and encoder on a sequence of integers, and
    [adafruit_rsa.pem]: libraries outside [key.py]. *)
Variable der_decode : bytes -> result (list Z).
Variable der_encode : list Z -> result bytes.
Variable load_pem : bytes -> string -> result bytes.
Variable save_pem : bytes -> string -> result bytes.
(** [adafruit_rsa.randnum.randint]: "a fresh random blinding factor". *)
Variable randint : Z -> M S Z.

Definition _save_pkcs1_der (self : t) : result bytes :=
  der_encode [0; n self; e self; d self; p self; q self;
              exp1 self; exp2 self; coef self].

Definition _save_pkcs1_pem (self : t) : result bytes :=
  (der <- _save_pkcs1_der self ;;
   save_pem der "RSA PRIVATE KEY")%result.

Definition pkcs1 : AbstractKey.Pkcs1 t := {|
  AbstractKey._save_pkcs1_pem := _save_pkcs1_pem;
  AbstractKey._save_pkcs1_der := _save_pkcs1_der
|}.

Local Open Scope M_scope.

Definition blinded_decrypt (self : t) (encrypted : Z) : M S Z :=
  blind_r <- randint (n self - 1) ;;
  blinded <- lift (AbstractKey.blind self encrypted blind_r) ;;
  decrypted <- lift (decrypt_int blinded (d self) (n self)) ;;
  lift (AbstractKey.unblind self decrypted blind_r).

Definition blinded_encrypt (self : t) (message : Z) : M S Z :=
  blind_r <- randint (n self - 1) ;;
  blinded <- lift (AbstractKey.blind self message blind_r) ;;
  encrypted <- lift (encrypt_int blinded (d self) (n self)) ;;
  lift (AbstractKey.unblind self encrypted blind_r).

Definition malformed_keyfile : string :=
  "You have providied a malformed keyfile. Either the exponentsor the coefficient are incorrect.".

Definition _load_pkcs1_der (keyfile : bytes) : M S t :=
  priv <- lift (der_decode keyfile) ;;
  version <- lift (index priv 0) ;;
  if negb (version =? 0) then
    raise (ValueError ("Unable to read this file, version "
                       +:+ fmt_int version +:+ " != 0"))
  else
    let as_ints := slice 1 6 priv in
    key <- lift (construct as_ints) ;;
    x <- lift (unpack3 (slice 6 9 priv)) ;;
    let '(exp1', exp2', coef') := x in
    (if negb ((exp1 key =? exp1') && (exp2 key =? exp2') && (coef key =? coef'))
     then log_debug malformed_keyfile
     else ret tt) ;;;
    ret key.

Definition _load_pkcs1_pem (keyfile : bytes) : M S t :=
  der <- lift (load_pem keyfile "RSA PRIVATE KEY") ;;
  _load_pkcs1_der der.

End Codec.
End PrivateKey.

(** *** Comparison of a key with an arbitrary object *)

Module Dynamic.

(** What [other] can be in [__eq__(self, other)]: [None], a public key, a
    private key, or an object of another class. *)
Inductive object : Type :=
| PyNone
| Public (k : PublicKey.t)
| Private (k : PrivateKey.t)
| Other.

(** [PublicKey.__eq__] *)
Definition PublicKey__eq__ (self : PublicKey.t) (other : object) : bool :=
  match other with
  | PyNone => false
  | Public other => PublicKey.__eq__ self other
  | Private _ | Other => false
  end.

(** [PublicKey.__ne__] *)
Definition PublicKey__ne__ (self : PublicKey.t) (other : object) : bool :=
  negb (PublicKey__eq__ self other).

(** [PrivateKey.__eq__] *)
Definition PrivateKey__eq__ (self : PrivateKey.t) (other : object) : bool :=
  match other with
  | PyNone => false
  | Private other => PrivateKey.__eq__ self other
  | Public _ | Other => false
  end.

(** [PrivateKey.__ne__] *)
Definition PrivateKey__ne__ (self : PrivateKey.t) (other : object) : bool :=
  negb (PrivateKey__eq__ self other).

End Dynamic.

(** *** The generator: find_p_q, calculate_keys_custom_exponent, gen_keys, newkeys *)

Module Generate.
Import Common Core.

Definition calculate_keys_custom_exponent (p q exponent : Z) : result (Z * Z) :=
  let phi_n := (p - 1) * (q - 1) in
  match inverse exponent phi_n with
  | Raise (NotRelativePrimeError _ _ ex_d _) =>
      Raise (NotRelativePrimeError exponent phi_n ex_d
               ("e (" +:+ fmt_int exponent +:+ ") and phi_n (" +:+ fmt_int phi_n
                +:+ ") are not relatively prime (divider=" +:+ fmt_int ex_d +:+ ")"))
  | Raise ex => Raise ex
  | Ok d =>
      (r <- py_mod (exponent * d) phi_n ;;
       if negb (r =? 1) then
         Raise (ValueError ("e (" +:+ fmt_int exponent +:+ ") and d (" +:+ fmt_int d
                            +:+ ") are not mult. inv. modulo phi_n ("
                            +:+ fmt_int phi_n +:+ ")"))
       else Ok (exponent, d))%result
  end.

Definition calculate_keys (p q : Z) : result (Z * Z) :=
  calculate_keys_custom_exponent p q DEFAULT_EXPONENT.

Section RandomSource.
Context {S : Type}.
Local Open Scope M_scope.

(** The closure [is_acceptable] of [find_p_q], with the variables
    [accurate] and [total_bits] it captures. *)
Definition is_acceptable (accurate : bool) (total_bits p q : Z) : bool :=
  if p =? q then false
  else if negb accurate then true
  else
    let found_size := bit_size (p * q) in
    total_bits =? found_size.

(** The [while not is_acceptable(p, q)] loop of [find_p_q]. *)
Fixpoint find_p_q_loop (fuel : nat) (getprime_func : Z -> M S Z)
    (accurate : bool) (total_bits pbits qbits p q : Z) (change_p : bool)
    : M S (Z * Z) :=
  if is_acceptable accurate total_bits p q then ret (p, q)
  else
    match fuel with
    | O => out_of_fuel
    | Datatypes.S fuel' =>
        if change_p then
          p' <- getprime_func pbits ;;
          find_p_q_loop fuel' getprime_func accurate total_bits pbits qbits
            p' q (negb change_p)
        else
          q' <- getprime_func qbits ;;
          find_p_q_loop fuel' getprime_func accurate total_bits pbits qbits
            p q' (negb change_p)
    end.

Definition find_p_q (fuel : nat) (nbits : Z) (getprime_func : Z -> M S Z)
    (accurate : bool) : M S (Z * Z) :=
  let total_bits := nbits * 2 in
  let shift := nbits / 16 in
  let pbits := nbits + shift in
  let qbits := nbits - shift in
  log_debug ("find_p_q(" +:+ fmt_int nbits +:+ "): Finding p") ;;;
  p <- getprime_func pbits ;;
  log_debug ("find_p_q(" +:+ fmt_int nbits +:+ "): Finding q") ;;;
  q <- getprime_func qbits ;;
  pq <- find_p_q_loop fuel getprime_func accurate total_bits pbits qbits
          p q false ;;
  let '(p, q) := pq in
  ret (Z.max p q, Z.min p q).

(** [while True: ... try: ... break / except ValueError: pass] *)
Fixpoint gen_keys (fuel : nat) (nbits : Z) (getprime_func : Z -> M S Z)
    (accurate : bool) (exponent : Z) : M S (Z * Z * Z * Z) :=
  match fuel with
  | O => out_of_fuel
  | Datatypes.S fuel' =>
      pq <- find_p_q fuel' (nbits / 2) getprime_func accurate ;;
      let '(p, q) := pq in
      match calculate_keys_custom_exponent p q exponent with
      | Ok (e, d) => ret (p, q, e, d)
      | Raise ex =>
          if is_ValueError ex then
            gen_keys fuel' nbits getprime_func accurate exponent
          else raise ex
      end
  end.

(** [adafruit_rsa.prime.getprime], which [newkeys] passes on. *)
Variable getprime : Z -> M S Z.

Definition newkeys (fuel : nat) (nbits : Z) (accurate : bool) (poolsize : Z)
    (exponent : Z) (log_level : string)
    : M S (PublicKey.t * PrivateKey.t) :=
  if nbits <? 16 then raise (ValueError "Key too small")
  else if poolsize <? 1 then
    raise (ValueError ("Pool size (" +:+ fmt_int poolsize +:+ ") should be >= 1"))
  else
    (if String.eqb log_level "DEBUG" then log_setLevel DEBUG else ret tt) ;;;
    let getprime_func := getprime in
    x <- gen_keys fuel nbits getprime_func accurate exponent ;;
    let '(p, q, e, d) := x in
    let n := p * q in
    let pub := PublicKey.__init__ n e in
    priv <- lift (PrivateKey.__init__ n e d p q) ;;
    ret (pub, priv).

End RandomSource.
End Generate.

(** ** Residues modulo a prime, for the arithmetic behind blinding *)

Module Residue.

(** The residues [1 .. p-1]. *)
Definition residues (p : Z) : list Z :=
  map Z.of_nat (seq 1 (Z.to_nat (p - 1))).

Definition product (l : list Z) : Z := fold_right Z.mul 1 l.

End Residue.

(** ** What the specification says, in its own words *)

Module Spec.
Import Common.

(** "For all generated key pairs: n == p * q,
    (e * d) mod ((p-1)*(q-1)) == 1, and p != q", for the two secret
    primes [p] and [q] and positive exponents. *)
Record valid_key (k : PrivateKey.t) : Prop := {
  p_prime : Z.prime (PrivateKey.p k);
  q_prime : Z.prime (PrivateKey.q k);
  p_neq_q : PrivateKey.p k <> PrivateKey.q k;
  n_is_pq : PrivateKey.n k = PrivateKey.p k * PrivateKey.q k;
  e_pos : 0 < PrivateKey.e k;
  d_pos : 0 < PrivateKey.d k;
  e_d_inverse :
    (PrivateKey.e k * PrivateKey.d k)
      mod ((PrivateKey.p k - 1) * (PrivateKey.q k - 1)) = 1
}.

(** "exp1 = d mod (p-1), exp2 = d mod (q-1), coef = q^-1 mod p" *)
Definition crt_fields_derived (k : PrivateKey.t) : Prop :=
  PrivateKey.exp1 k = PrivateKey.d k mod (PrivateKey.p k - 1)
  /\ PrivateKey.exp2 k = PrivateKey.d k mod (PrivateKey.q k - 1)
  /\ inverse (PrivateKey.q k) (PrivateKey.p k) = Ok (PrivateKey.coef k)
  /\ (PrivateKey.q k * PrivateKey.coef k) mod PrivateKey.p k
     = 1 mod PrivateKey.p k.

(** "Rejects pairs where p == q.  When accurate = true, additionally
    rejects pairs whose product's bit length does not exactly equal
    2*bits". *)
Definition rejected (accurate : bool) (bits p q : Z) : Prop :=
  p = q \/ (accurate = true /\ bit_size (p * q) <> 2 * bits).

Section Search.
Context {S : Type}.
Variable getprime_func : Z -> M S Z.
Variable accurate : bool.
Variables bits pbits qbits : Z.

(** "re-sampling alternately ... until satisfied":
    [resamples k i p q w pf qf wf] holds when, starting with the pair
    [(p, q)] in world [w] before the [i]-th re-sampling (counted from
    0), the search ends after [k] more re-samplings with the pair
    [(pf, qf)] in world [wf]: a rejected pair has [q] drawn again when
    [i] is even and [p] drawn again when [i] is odd, the other prime
    being kept. *)
Inductive resamples :
  nat -> nat -> Z -> Z -> world S -> Z -> Z -> world S -> Prop :=
| resamples_done i p q w :
    ~ rejected accurate bits p q ->
    resamples O i p q w p q w
| resamples_q k i p q w q' w1 pf qf wf :
    Nat.even i = true ->
    rejected accurate bits p q ->
    getprime_func qbits w = Some (Ok q', w1) ->
    resamples k (Datatypes.S i) p q' w1 pf qf wf ->
    resamples (Datatypes.S k) i p q w pf qf wf
| resamples_p k i p q w p' w1 pf qf wf :
    Nat.even i = false ->
    rejected accurate bits p q ->
    getprime_func pbits w = Some (Ok p', w1) ->
    resamples k (Datatypes.S i) p' q w1 pf qf wf ->
    resamples (Datatypes.S k) i p q w pf qf wf.
End Search.

(** The world after [log.debug(msg)]. *)
Definition after_debug {S : Type} (msg : string) (w : world S) : world S :=
  World (rng w) (log_level w) (log_calls w ++ [(DEBUG, msg)]).

(** The world after [newkeys] has looked at its [log_level] argument. *)
Definition with_level {S : Type} (log_level : string) (w : world S) : world S :=
  if String.eqb log_level "DEBUG"
  then World (rng w) DEBUG (log_calls w) else w.

(** "logging (not failing) on mismatch with the encoded values": the world
    after a successful decode, where the warning has been logged exactly
    when an encoded CRT field differs from the derived one. *)
Definition logged_mismatch {S : Type} (key : PrivateKey.t) (x1 x2 x3 : Z)
    (w : world S) : world S :=
  if (PrivateKey.exp1 key =? x1) && (PrivateKey.exp2 key =? x2)
     && (PrivateKey.coef key =? x3)
  then w else after_debug PrivateKey.malformed_keyfile w.

End Spec.

(** ** Small concrete inputs *)

Module Examples.

(** The key with [p = 11], [q = 3], [n = 33], [e = 3], [d = 7]:
    [3 * 7 = 21 = 1 mod 20]. *)
Definition toy_key : PrivateKey.t := PrivateKey.mk 33 3 7 11 3 7 1 4.

(** What the constructor makes of [(58322, 65537, 23393, 242, 241)]:
    [58322 = 242 * 241] and [65537 * 23393 = 1 mod (241 * 240)], but 242 is
    not prime. *)
Definition composite_key : PrivateKey.t :=
  PrivateKey.mk 58322 65537 23393 242 241 16 113 241.

(** A random source that hands out the integers of a list in order,
    whatever it is asked for, and raises when the list is exhausted. *)
Definition from_list (_ : Z) : M (list Z) Z :=
  fun w =>
    match rng w with
    | x :: rest => Some (Ok x, World rest (log_level w) (log_calls w))
    | [] => Some (Raise IndexError, w)
    end.

Definition start (l : list Z) : world (list Z) := World l INFO [].

(** [repr] of a string without quotes or escapes in it. *)
Definition quoted (s : string) : string := "'" +:+ s +:+ "'".

(** Save methods that encode every key as the empty byte string. *)
Definition toy_pkcs1 : AbstractKey.Pkcs1 PublicKey.t :=
  PublicKey.pkcs1 (fun _ => Ok []) (fun der _ => Ok der).

(** A DER decoder that yields the given integers for every input. *)
Definition decoded (priv : list Z) : bytes -> result (list Z) :=
  fun _ => Ok priv.


(** A DER encoder that knows one sequence only, the one [decoded] yields,
    and PEM functions that leave the bytes as they are. *)
Definition encoded (priv : list Z) : list Z -> result bytes :=
  fun l =>
    if bool_decide (l = priv) then Ok []
    else Raise (TypeError "cannot encode").

Definition plain_pem (contents : bytes) (_ : string) : result bytes :=
  Ok contents.

(** The toy key after its CRT fields have been overwritten. *)
Definition tampered_key : PrivateKey.t :=
  PrivateKey.__setstate__ toy_key (33, 3, 7, 11, 3, 0, 0, 0).

End Examples.

(** * Properties *)

(** ** The extended Euclidean algorithm and the modular inverse *)

Module CommonFacts.
Import Common.

Lemma extended_gcd_loop_spec (oa ob : Z) :
  forall (fuel : nat) (a b x lx y ly : Z),
    (Z.abs_nat b < fuel)%nat ->
    a = oa * lx + ob * ly ->
    b = oa * x + ob * y ->
    forall g i j, extended_gcd_loop fuel a b x lx y ly = (g, i, j) ->
    g = oa * i + ob * j /\ Z.abs g = Z.gcd a b.
Proof.
  induction fuel as [|fuel IH]; intros a b x lx y ly Hfuel Ha Hb g i j; [lia|].
  cbn [extended_gcd_loop].
  destruct (Z.eqb_spec b 0) as [->|Hnz].
  - intros [= <- <- <-]. split; [exact Ha|]. now rewrite Z.gcd_0_r.
  - intros Hloop.
    apply IH in Hloop.
    + destruct Hloop as [Hg Habs]. split; [exact Hg|].
      rewrite Habs, Z.gcd_comm, Z.gcd_mod by exact Hnz. apply Z.gcd_comm.
    + pose proof (Z.mod_bound_or a b Hnz). lia.
    + exact Hb.
    + rewrite (Z.mod_eq a b Hnz). generalize (a / b). intros k. subst a b. ring.
Qed.

Lemma extended_gcd_spec (a b : Z) :
  forall g i j, extended_gcd a b = (g, i, j) ->
  a * i + b * j = g /\ g = Z.gcd a b.
Proof.
  intros g i j. unfold extended_gcd.
  destruct (extended_gcd_loop _ a b 0 1 1 0) as [[g0 i0] j0] eqn:Hloop.
  apply (extended_gcd_loop_spec a b) in Hloop; [|lia|ring|ring].
  destruct Hloop as [Hg Habs].
  destruct (Z.ltb_spec g0 0); intros [= <- <- <-]; split; lia.
Qed.

Lemma inverse_not_coprime (x n : Z) :
  Z.gcd x n <> 1 ->
  exists msg, inverse x n = Raise (NotRelativePrimeError x n (Z.gcd x n) msg).
Proof.
  intros Hg. unfold inverse.
  destruct (extended_gcd x n) as [[g i] j] eqn:He.
  apply extended_gcd_spec in He as [_ ->].
  destruct (Z.eqb_spec (Z.gcd x n) 1); [contradiction|]. eauto.
Qed.

Lemma inverse_coprime (x n : Z) :
  Z.gcd x n = 1 ->
  exists i, inverse x n = Ok i /\ (x * i) mod n = 1 mod n
            /\ (0 < n -> 0 <= i < n).
Proof.
  intros Hg. unfold inverse.
  destruct (extended_gcd x n) as [[g i] j] eqn:He.
  apply extended_gcd_spec in He as [Hbez ->].
  rewrite Hg in *. cbn [Z.eqb Pos.eqb].
  exists (i mod n). split; [reflexivity|]. split.
  - rewrite Zmult_mod_idemp_r.
    replace (x * i) with (1 + (- j) * n) by lia.
    now rewrite Z_mod_plus_full.
  - intros Hn. now apply Z.mod_pos_bound.
Qed.

Lemma inverse_Ok (x n i : Z) :
  inverse x n = Ok i ->
  Z.gcd x n = 1 /\ (x * i) mod n = 1 mod n /\ (0 < n -> 0 <= i < n).
Proof.
  intros Hi. destruct (Z.eq_dec (Z.gcd x n) 1) as [Hg|Hg].
  - split; [exact Hg|].
    destruct (inverse_coprime x n Hg) as (i' & Hi' & H1 & H2).
    rewrite Hi in Hi'. injection Hi' as ->. auto.
  - destruct (inverse_not_coprime x n Hg) as [msg Hr]. congruence.
Qed.
End CommonFacts.

Module CoreFacts.
Import Core.

Lemma pow_mod_pos_spec (x m : Z) (e : positive) :
  pow_mod_pos x e m = x ^ Z.pos e mod m.
Proof.
  induction e as [e IH|e IH|]; cbn [pow_mod_pos].
  - rewrite IH, <- Zmult_mod, Zmult_mod_idemp_r, Pos2Z.inj_xI.
    rewrite <- Z.pow_add_r, <- Z.pow_succ_r by lia.
    f_equal. f_equal. lia.
  - rewrite IH, Pos2Z.inj_xO, <- Zmult_mod, <- Z.pow_add_r by lia.
    f_equal. f_equal. lia.
  - now rewrite Z.pow_1_r.
Qed.

Lemma fast_pow_spec (x e m : Z) :
  0 < m -> 0 <= e -> fast_pow x e m = Ok (x ^ e mod m).
Proof.
  intros Hm He. unfold fast_pow.
  destruct (Z.leb_spec m 0); [lia|].
  destruct e as [|e|e]; [reflexivity| |lia].
  now rewrite pow_mod_pos_spec.
Qed.
End CoreFacts.

(** ** Fermat's little theorem and the RSA exponent identity *)

Module Residues.
Import Residue.

Lemma In_residues (p x : Z) : In x (residues p) <-> 1 <= x < p.
Proof.
  unfold residues. rewrite in_map_iff. split.
  - intros (k & <- & Hk). apply in_seq in Hk. lia.
  - intros Hx. exists (Z.to_nat x). split; [lia|]. apply in_seq. lia.
Qed.

Lemma length_residues (p : Z) : Z.of_nat (length (residues p)) = Z.max 0 (p - 1).
Proof. unfold residues. rewrite length_map, length_seq. lia. Qed.

Lemma NoDup_residues (p : Z) : List.NoDup (residues p).
Proof.
  unfold residues. apply Injective_map_NoDup.
  - intros x y. apply Nat2Z.inj.
  - apply seq_NoDup.
Qed.

Lemma product_Permutation (l l' : list Z) :
  Permutation l l' -> product l = product l'.
Proof.
  induction 1; cbn [product fold_right] in *; try lia.
  fold (product l) in *. fold (product l') in *. now rewrite IHPermutation.
Qed.

Lemma product_scaled (a p : Z) (l : list Z) :
  product (map (fun x => (a * x) mod p) l) mod p
  = (a ^ Z.of_nat (length l) * product l) mod p.
Proof.
  induction l as [|x l IH].
  - reflexivity.
  - cbn [map product fold_right length].
    fold (product l). fold (product (map (fun x => (a * x) mod p) l)).
    rewrite Zmult_mod, Zmod_mod, IH, <- Zmult_mod.
    rewrite Nat2Z.inj_succ, Z.pow_succ_r by lia.
    f_equal. ring.
Qed.

Lemma coprime_product (p : Z) (l : list Z) :
  (forall x, In x l -> Z.coprime x p) -> Z.coprime (product l) p.
Proof.
  induction l as [|x l IH]; intros Hl; cbn [product fold_right].
  - apply Z.coprime_1_l.
  - fold (product l). apply Z.coprime_mul_l.
    + apply Hl, in_eq.
    + apply IH. intros y Hy. apply Hl. now apply in_cons.
Qed.

Section Prime.
Variable p : Z.
Hypothesis p_prime : Z.prime p.
Variable a : Z.
Hypothesis not_div : ~ (p | a).

Lemma scaled_residue (x : Z) :
  In x (residues p) -> In ((a * x) mod p) (residues p).
Proof.
  rewrite !In_residues. intros Hx.
  pose proof (Z.mod_pos_bound (a * x) p ltac:(lia)) as Hb.
  assert ((a * x) mod p <> 0); [|lia].
  intros H0. apply Z.mod_divide in H0; [|lia].
  apply Z.divide_prime_mul in H0 as [H0|H0]; [contradiction| |exact p_prime].
  apply Z.divide_pos_le in H0; lia.
Qed.

Lemma scaled_residue_inj (x y : Z) :
  In x (residues p) -> In y (residues p) ->
  (a * x) mod p = (a * y) mod p -> x = y.
Proof.
  rewrite !In_residues. intros Hx Hy Heq.
  assert (Hd : (p | a * (x - y))).
  { apply Z.mod_divide; [lia|].
    rewrite Z.mul_sub_distr_l, Zminus_mod, Heq, Z.sub_diag. reflexivity. }
  apply Z.divide_prime_mul in Hd as [Hd|Hd]; [contradiction| |exact p_prime].
  destruct Hd as [k Hk].
  assert (k = 0) by nia. lia.
Qed.

Lemma scaled_residues_Permutation :
  Permutation (map (fun x => (a * x) mod p) (residues p)) (residues p).
Proof.
  apply NoDup_Permutation_bis.
  - apply Injective_map_NoDup_in; [|apply NoDup_residues].
    intros x y; apply scaled_residue_inj.
  - now rewrite length_map.
  - intros y Hy. apply in_map_iff in Hy as (x & <- & Hx).
    now apply scaled_residue.
Qed.

Theorem fermat_little : a ^ (p - 1) mod p = 1.
Proof.
  pose proof (Z.prime_ge_2 p p_prime) as Hp.
  pose proof (product_scaled a p (residues p)) as Hs.
  rewrite (product_Permutation _ _ scaled_residues_Permutation) in Hs.
  rewrite length_residues, Z.max_r in Hs by lia.
  assert (Hd : (p | product (residues p) * (a ^ (p - 1) - 1))).
  { apply Z.mod_divide; [lia|].
    rewrite Z.mul_sub_distr_l, Zminus_mod, (Z.mul_comm _ (a ^ _)), <- Hs.
    rewrite Z.mul_1_r, Z.sub_diag. reflexivity. }
  apply Z.gauss in Hd.
  - destruct Hd as [k Hk].
    replace (a ^ (p - 1)) with (1 + k * p) by lia.
    rewrite Z_mod_plus_full. apply Z.mod_1_l. lia.
  - rewrite Z.gcd_comm. apply coprime_product.
    intros x Hx. apply In_residues in Hx. symmetry.
    now apply Z.coprime_prime_small.
Qed.
End Prime.

Lemma pow_mod_prime (p a k : Z) :
  Z.prime p -> 1 <= k -> (p - 1 | k - 1) -> a ^ k mod p = a mod p.
Proof.
  intros Hp Hk [t Ht].
  pose proof (Z.prime_ge_2 p Hp) as Hp2.
  assert (0 <= t) by nia.
  replace k with (1 + (p - 1) * t) by lia.
  rewrite Z.pow_add_r, Z.pow_1_r, Z.pow_mul_r by lia.
  destruct (Z.eq_dec (a mod p) 0) as [Hd|Hd].
  - rewrite Zmult_mod, Hd. reflexivity.
  - rewrite Z.mod_divide in Hd by lia.
    rewrite Zmult_mod, <- (Z.mod_pow_l (a ^ (p - 1))), fermat_little by auto.
    rewrite Z.pow_1_l, (Z.mod_1_l p), Z.mul_1_r, Zmod_mod by lia.
    reflexivity.
Qed.

Theorem rsa_exponent (p q a k : Z) :
  Z.prime p -> Z.prime q -> p <> q -> 0 <= k ->
  k mod ((p - 1) * (q - 1)) = 1 ->
  a ^ k mod (p * q) = a mod (p * q).
Proof.
  intros Hp Hq Hne Hk Hmod.
  pose proof (Z.prime_ge_2 p Hp). pose proof (Z.prime_ge_2 q Hq).
  assert (Hphi : (p - 1) * (q - 1) <> 0) by nia.
  pose proof (Z.div_mod k _ Hphi) as Hdiv. rewrite Hmod in Hdiv.
  set (t := k / ((p - 1) * (q - 1))) in *.
  assert (0 <= t) by (apply Z.div_pos; nia).
  assert (1 <= k) by nia.
  assert (Hdp : (p | a ^ k - a)).
  { apply Z.mod_divide; [lia|].
    rewrite Zminus_mod, (pow_mod_prime p a k), Z.sub_diag; auto.
    exists ((q - 1) * t). lia. }
  assert (Hdq : (q | a ^ k - a)).
  { apply Z.mod_divide; [lia|].
    rewrite Zminus_mod, (pow_mod_prime q a k), Z.sub_diag; auto.
    exists ((p - 1) * t). lia. }
  destruct Hdp as [u Hu].
  assert (Hqu : (q | u)).
  { apply Z.gauss with p; [rewrite Z.mul_comm, <- Hu; exact Hdq|].
    apply Z.coprime_prime_l; [exact Hq|].
    intros Hd. apply Z.divide_prime_prime in Hd; auto. }
  destruct Hqu as [v ->].
  replace (a ^ k) with (a + v * (p * q)) by lia.
  apply Z_mod_plus_full.
Qed.
End Residues.

(** ** Blinding *)

Module Blinding.
Import Common Core CommonFacts CoreFacts Residues Spec Examples.

Lemma prime_11 : Z.prime 11.
Proof.
  split; [lia|]. intros n Hn [k Hk].
  assert (0 < k) by nia.
  assert (k < 11) by nia.
  assert (Hc : n = 2 \/ n = 3 \/ n = 4 \/ n = 5 \/ n = 6 \/ n = 7
               \/ n = 8 \/ n = 9 \/ n = 10) by lia.
  repeat (destruct Hc as [->|Hc]; [lia|]). lia.
Qed.

Lemma toy_key_valid : valid_key toy_key.
Proof.
  constructor; cbn; try lia; try reflexivity.
  - exact prime_11.
  - exact Z.prime_3.
Qed.

Lemma modulus_pos (p q n : Z) :
  Z.prime p -> Z.prime q -> n = p * q -> 1 < n.
Proof.
  intros Hp%Z.prime_ge_2 Hq%Z.prime_ge_2 ->. nia.
Qed.

Lemma pow_e_d (p q n e d a : Z) :
  Z.prime p -> Z.prime q -> p <> q -> n = p * q -> 0 < e -> 0 < d ->
  (e * d) mod ((p - 1) * (q - 1)) = 1 ->
  a ^ (e * d) mod n = a mod n.
Proof. intros Hp Hq Hne -> He Hd Hed. apply rsa_exponent; auto; nia. Qed.

(** Raising a blinded value to [d] leaves the factor [r] itself. *)
Lemma decrypt_blinded (p q n e d c r : Z) :
  Z.prime p -> Z.prime q -> p <> q -> n = p * q -> 0 < e -> 0 < d ->
  (e * d) mod ((p - 1) * (q - 1)) = 1 ->
  ((c * (r ^ e mod n)) mod n) ^ d mod n = (c ^ d * r) mod n.
Proof.
  intros Hp Hq Hne Hn He Hd Hed.
  rewrite Z.mod_pow_l, Z.pow_mul_l.
  rewrite <- Zmult_mod_idemp_r, Z.mod_pow_l, <- Z.pow_mul_r by lia.
  rewrite (pow_e_d p q n e d) by assumption.
  rewrite Zmult_mod_idemp_r. reflexivity.
Qed.

Lemma unblind_cancels (n i r x : Z) :
  (r * i) mod n = 1 mod n -> (i * ((x * r) mod n)) mod n = x mod n.
Proof.
  intros Hi. rewrite Zmult_mod_idemp_r.
  replace (i * (x * r)) with (x * (r * i)) by ring.
  rewrite <- Zmult_mod_idemp_r, Hi, Zmult_mod_idemp_r, Z.mul_1_r. reflexivity.
Qed.

Ltac key_fields k :=
  destruct k as [n e d p q exp1 exp2 coef];
  cbn [AbstractKey.n AbstractKey.e PrivateKey.key
       PrivateKey.n PrivateKey.e PrivateKey.d PrivateKey.p PrivateKey.q] in *.

(** What [unblind] makes of a freshly blinded value: the factor
    [r ^ (e - 1)] stays. *)
Lemma unblind_blind `{AbstractKey.t K} (k : K) (m r : Z) :
  0 < AbstractKey.n k -> 0 < AbstractKey.e k ->
  Z.gcd r (AbstractKey.n k) = 1 ->
  rbind (AbstractKey.blind k m r) (fun b => AbstractKey.unblind k b r)
  = Ok ((m * r ^ (AbstractKey.e k - 1)) mod AbstractKey.n k).
Proof.
  intros Hn He Hr. unfold AbstractKey.blind, AbstractKey.unblind.
  set (n := AbstractKey.n k) in *. set (e := AbstractKey.e k) in *.
  clearbody n e.
  rewrite fast_pow_spec by lia. cbn [rbind]. unfold py_mod.
  destruct (Z.eqb_spec n 0); [lia|]. cbn [rbind].
  destruct (inverse_coprime r n Hr) as (i & -> & Hi & _). cbn [rbind].
  f_equal.
  rewrite (Zmult_mod_idemp_r (r ^ e)).
  replace (m * r ^ e) with (m * r ^ (e - 1) * r).
  - now apply unblind_cancels.
  - replace e with (e - 1 + 1) at 2 by lia.
    rewrite Z.pow_add_r, Z.pow_1_r by lia. ring.
Qed.

(** Claim C2 as it is written fails: with the key [n = 33 = 11 * 3],
    [e = 3], [d = 7], the message [2] and the blinding factor [2], which is
    coprime to [33], [unblind(blind(2, 2), 2)] is [8]. *)
Lemma blind_unblind_not_identity :
  ~ (forall (k : PrivateKey.t) (m r : Z),
       valid_key k -> 0 <= m < PrivateKey.n k ->
       Z.gcd r (PrivateKey.n k) = 1 ->
       rbind (AbstractKey.blind k m r) (fun b => AbstractKey.unblind k b r)
       = Ok m).
Proof.
  intros H.
  specialize (H toy_key 2 2 toy_key_valid ltac:(cbn; lia) eq_refl).
  vm_compute in H. discriminate H.
Qed.

(** Blinding, the private-key operation and unblinding in a row. *)
Lemma unblind_decrypt_blind (k : PrivateKey.t) (c r : Z) :
  valid_key k ->
  Z.gcd r (PrivateKey.n k) = 1 ->
  rbind (AbstractKey.blind k c r)
    (fun b => rbind (decrypt_int b (PrivateKey.d k) (PrivateKey.n k))
                (fun x => AbstractKey.unblind k x r))
  = Ok (c ^ PrivateKey.d k mod PrivateKey.n k).
Proof.
  intros Hk Hr.
  pose proof (modulus_pos _ _ _ (p_prime k Hk) (q_prime k Hk) (n_is_pq k Hk)) as Hn.
  destruct Hk as [Hp Hq Hne HN He Hd Hed].
  key_fields k.
  unfold AbstractKey.blind, AbstractKey.unblind, decrypt_int.
  cbn [AbstractKey.n AbstractKey.e PrivateKey.key PrivateKey.n PrivateKey.e].
  rewrite !fast_pow_spec by lia. cbn [rbind]. unfold py_mod.
  destruct (Z.eqb_spec n 0); [lia|]. cbn [rbind].
  rewrite fast_pow_spec by lia. cbn [rbind].
  destruct (inverse_coprime r n Hr) as (i & -> & Hi & _). cbn [rbind].
  f_equal.
  rewrite (decrypt_blinded p q n e d) by assumption.
  now apply unblind_cancels.
Qed.

(** C2 (amended): blinding is transparent to the private-key operation it
    wraps, not on its own.  For every valid key pair, every integer [c]
    and every [r] coprime to [n], [unblind(blind(c, r), r)] is
    [(c * r^(e-1)) mod n], and
    [unblind(decrypt_int(blind(c, r), d, n), r)] is
    [decrypt_int(c, d, n)]. *)
Theorem blinding_transparent_through_decrypt (k : PrivateKey.t) (c r : Z) :
  valid_key k ->
  Z.gcd r (PrivateKey.n k) = 1 ->
  rbind (AbstractKey.blind k c r) (fun b => AbstractKey.unblind k b r)
  = Ok ((c * r ^ (PrivateKey.e k - 1)) mod PrivateKey.n k)
  /\ rbind (AbstractKey.blind k c r)
       (fun b => rbind (decrypt_int b (PrivateKey.d k) (PrivateKey.n k))
                   (fun x => AbstractKey.unblind k x r))
     = decrypt_int c (PrivateKey.d k) (PrivateKey.n k).
Proof.
  intros Hk Hr.
  pose proof (modulus_pos _ _ _ (p_prime k Hk) (q_prime k Hk) (n_is_pq k Hk)) as Hn.
  split.
  - pose proof (unblind_blind k c r) as E.
    cbn [AbstractKey.n AbstractKey.e PrivateKey.key] in E.
    apply E; [lia|apply Hk|exact Hr].
  - rewrite unblind_decrypt_blind by assumption.
    unfold decrypt_int. rewrite fast_pow_spec; [reflexivity|lia|].
    pose proof (d_pos k Hk). lia.
Qed.

Lemma blinding_transparent_through_decrypt_witness :
  valid_key toy_key /\ Z.gcd 5 33 = 1
  /\ rbind (AbstractKey.blind toy_key 2 5)
       (fun b => rbind (decrypt_int b 7 33)
                   (fun x => AbstractKey.unblind toy_key x 5))
     = decrypt_int 2 7 33.
Proof.
  split; [exact toy_key_valid|]. split; [reflexivity|].
  exact (proj2 (blinding_transparent_through_decrypt toy_key 2 5
                  toy_key_valid eq_refl)).
Defined.

(** C3 (amended): for every valid key pair, that is [n = p * q] for two
    different primes [p] and [q], [e > 0], [d > 0] and
    [(e * d) mod ((p-1)*(q-1)) = 1], and every message [0 <= m < n],
    whatever blinding factor [r] in [1, n-1] coprime to [n] the random
    source returns, [blinded_decrypt] applied to [m^e mod n] returns [m],
    in the world the random source left. *)
Theorem blinded_decrypt_roundtrip {S : Type} (randint : Z -> M S Z)
    (k : PrivateKey.t) (m r : Z) (w w1 : world S) :
  valid_key k ->
  0 <= m < PrivateKey.n k ->
  randint (PrivateKey.n k - 1) w = Some (Ok r, w1) ->
  1 <= r <= PrivateKey.n k - 1 ->
  Z.gcd r (PrivateKey.n k) = 1 ->
  encrypt_int m (PrivateKey.e k) (PrivateKey.n k)
  = Ok (m ^ PrivateKey.e k mod PrivateKey.n k)
  /\ PrivateKey.blinded_decrypt randint k
       (m ^ PrivateKey.e k mod PrivateKey.n k) w
     = Some (Ok m, w1).
Proof.
  intros Hk Hm Hrand Hrange Hr.
  pose proof (modulus_pos _ _ _ (p_prime k Hk) (q_prime k Hk) (n_is_pq k Hk)) as Hn.
  pose proof (unblind_decrypt_blind k
                (m ^ PrivateKey.e k mod PrivateKey.n k) r Hk Hr) as Ht.
  destruct Hk as [Hp Hq Hne HN He Hd Hed].
  key_fields k.
  split; [apply fast_pow_spec; lia|].
  unfold PrivateKey.blinded_decrypt, bind, lift.
  cbn [PrivateKey.n PrivateKey.d]. rewrite Hrand.
  destruct (AbstractKey.blind _ _ r) as [b|ex]; cbn [rbind] in Ht; [|discriminate Ht].
  destruct (decrypt_int b d n) as [x|ex]; cbn [rbind] in Ht; [|discriminate Ht].
  rewrite Ht.
  rewrite Z.mod_pow_l, <- Z.pow_mul_r by lia.
  rewrite (pow_e_d p q n e d) by assumption.
  rewrite Z.mod_small by lia. reflexivity.
Qed.

(** The constructor accepts a modulus with a composite factor. *)
Lemma composite_key_constructed :
  PrivateKey.__init__ 58322 65537 23393 242 241 = Ok composite_key.
Proof. vm_compute. reflexivity. Qed.

(** Claim C3 as it is written fails: [n = p * q] and
    [(e * d) mod ((p-1)*(q-1)) = 1] do not make a key pair when [p] is not
    prime.  The constructor accepts [(58322, 65537, 23393, 242, 241)], and
    the message [11], encrypted to [44891] and decrypted with the blinding
    factor [5], comes back as [31823]. *)
Lemma blinded_decrypt_composite_modulus :
  ~ (forall (k : PrivateKey.t) (m r c : Z) (w w1 : world (list Z)),
       PrivateKey.n k = PrivateKey.p k * PrivateKey.q k ->
       (PrivateKey.e k * PrivateKey.d k)
         mod ((PrivateKey.p k - 1) * (PrivateKey.q k - 1)) = 1 ->
       0 <= m < PrivateKey.n k ->
       from_list (PrivateKey.n k - 1) w = Some (Ok r, w1) ->
       1 <= r <= PrivateKey.n k - 1 ->
       Z.gcd r (PrivateKey.n k) = 1 ->
       encrypt_int m (PrivateKey.e k) (PrivateKey.n k) = Ok c ->
       PrivateKey.blinded_decrypt from_list k c w = Some (Ok m, w1)).
Proof.
  intros H.
  assert (Hrun : PrivateKey.blinded_decrypt from_list composite_key 44891
                   (start [5]) = Some (Ok 31823, start []))
    by (vm_compute; reflexivity).
  specialize (H composite_key 11 5 44891 (start [5]) (start [])
                eq_refl ltac:(vm_compute; reflexivity) ltac:(cbn; lia)
                eq_refl ltac:(cbn; lia) ltac:(vm_compute; reflexivity)
                ltac:(vm_compute; reflexivity)).
  rewrite Hrun in H. discriminate H.
Qed.

Lemma blinded_decrypt_roundtrip_witness :
  valid_key toy_key /\ 0 <= 2 < 33
  /\ encrypt_int 2 3 33 = Ok 8
  /\ PrivateKey.blinded_decrypt from_list toy_key 8 (start [5])
     = Some (Ok 2, start []).
Proof.
  split; [exact toy_key_valid|]. split; [lia|].
  exact (blinded_decrypt_roundtrip from_list toy_key 2 5 (start [5]) (start [])
           toy_key_valid ltac:(cbn; lia) eq_refl ltac:(cbn; lia) eq_refl).
Defined.
End Blinding.

(** ** Key derivation *)

Module Derivation.
Import Common CommonFacts Generate.

(** C5 (amended): with [phi = (p-1)*(q-1)] nonzero, as it is for primes
    [p] and [q], [calculate_keys_custom_exponent p q exponent] raises, when
    [gcd(exponent, phi) != 1], the not-coprime error carrying [exponent],
    [phi] and that GCD, re-raised with the message
    ["e (...) and phi_n (...) are not relatively prime (divider=...)"];
    otherwise, with [d = inverse(exponent, phi)], it returns
    [(exponent, d)] when [(exponent * d) mod phi == 1] and raises the
    [ValueError] ["e (...) and d (...) are not mult. inv. modulo phi_n (...)"]
    when not; whatever it returns satisfies
    [(exponent * d) mod phi == 1]. *)
Theorem calculate_keys_custom_exponent_spec (p q exponent : Z) :
  (p - 1) * (q - 1) <> 0 ->
  (Z.gcd exponent ((p - 1) * (q - 1)) <> 1 ->
   calculate_keys_custom_exponent p q exponent
   = Raise (NotRelativePrimeError exponent ((p - 1) * (q - 1))
              (Z.gcd exponent ((p - 1) * (q - 1)))
              ("e (" +:+ fmt_int exponent +:+ ") and phi_n ("
               +:+ fmt_int ((p - 1) * (q - 1))
               +:+ ") are not relatively prime (divider="
               +:+ fmt_int (Z.gcd exponent ((p - 1) * (q - 1))) +:+ ")")))
  /\ (Z.gcd exponent ((p - 1) * (q - 1)) = 1 ->
      exists d,
        inverse exponent ((p - 1) * (q - 1)) = Ok d
        /\ ((exponent * d) mod ((p - 1) * (q - 1)) = 1 ->
            calculate_keys_custom_exponent p q exponent = Ok (exponent, d))
        /\ ((exponent * d) mod ((p - 1) * (q - 1)) <> 1 ->
            calculate_keys_custom_exponent p q exponent
            = Raise (ValueError
                       ("e (" +:+ fmt_int exponent +:+ ") and d ("
                        +:+ fmt_int d
                        +:+ ") are not mult. inv. modulo phi_n ("
                        +:+ fmt_int ((p - 1) * (q - 1)) +:+ ")"))))
  /\ (forall e d,
        calculate_keys_custom_exponent p q exponent = Ok (e, d) ->
        e = exponent
        /\ inverse exponent ((p - 1) * (q - 1)) = Ok d
        /\ (exponent * d) mod ((p - 1) * (q - 1)) = 1).
Proof.
  intros Hphi. unfold calculate_keys_custom_exponent.
  set (phi_n := (p - 1) * (q - 1)) in *. clearbody phi_n.
  unfold py_mod. destruct (Z.eqb_spec phi_n 0) as [|_]; [contradiction|].
  cbn [rbind]. split; [|split].
  - intros Hg. destruct (inverse_not_coprime _ _ Hg) as [msg ->].
    reflexivity.
  - intros Hg. destruct (inverse_coprime _ _ Hg) as (d & Hd & _).
    exists d. rewrite Hd. split; [reflexivity|]. split; intros Hc.
    + rewrite Hc. reflexivity.
    + destruct (Z.eqb_spec ((exponent * d) mod phi_n) 1); [contradiction|].
      reflexivity.
  - intros e d.
    destruct (inverse exponent phi_n) as [d'|[]]; try discriminate.
    destruct (Z.eqb_spec ((exponent * d') mod phi_n) 1); [|discriminate].
    cbn [negb]. now intros [= <- <-].
Qed.

Lemma calculate_keys_custom_exponent_spec_witness :
  (11 - 1) * (3 - 1) <> 0
  /\ calculate_keys_custom_exponent 11 3 3 = Ok (3, 7)
  /\ (7 - 1) * (3 - 1) <> 0
  /\ calculate_keys_custom_exponent 7 3 3
     = Raise (NotRelativePrimeError 3 12 3
                "e (3) and phi_n (12) are not relatively prime (divider=3)").
Proof.
  split; [lia|]. split.
  - destruct (calculate_keys_custom_exponent_spec 11 3 3 ltac:(lia))
      as (_ & Hok & _).
    destruct (Hok eq_refl) as (d & Hd & Hret & _).
    vm_compute in Hd. injection Hd as <-. apply Hret. reflexivity.
  - split; [lia|].
    destruct (calculate_keys_custom_exponent_spec 7 3 3 ltac:(lia))
      as (Hbad & _).
    apply Hbad. vm_compute. discriminate.
Defined.

(** Claim C5 as it is written fails where [phi] is 0: with [p = 1],
    [q = 5] and [exponent = 1] the GCD is 1, and the call neither returns
    nor raises a [ValueError]: the check itself divides by zero. *)
Lemma calculate_keys_check_divides_by_zero :
  ~ (forall p q exponent,
       Z.gcd exponent ((p - 1) * (q - 1)) = 1 ->
       (exists d,
          calculate_keys_custom_exponent p q exponent = Ok (exponent, d))
       \/ (exists msg,
             calculate_keys_custom_exponent p q exponent
             = Raise (ValueError msg))).
Proof.
  intros H. destruct (H 1 5 1 eq_refl) as [[d Hd]|[msg Hmsg]].
  - discriminate Hd.
  - discriminate Hmsg.
Qed.

(** Outside the domain of the function: with [p = 1], [phi] is 0 and the
    check itself divides by zero. *)
Lemma calculate_keys_phi_0 :
  calculate_keys_custom_exponent 1 5 1 = Raise ZeroDivisionError.
Proof. reflexivity. Qed.

(** The consistency check can fail: with [p = q = 2], [phi] is 1 and the
    inverse modulo 1 is 0. *)
Lemma calculate_keys_phi_1 :
  calculate_keys_custom_exponent 2 2 5
  = Raise (ValueError "e (5) and d (0) are not mult. inv. modulo phi_n (1)").
Proof. reflexivity. Qed.

(** What a returned pair satisfies, whatever [phi] is. *)
Lemma calculate_keys_custom_exponent_Ok (p q exponent e d : Z) :
  calculate_keys_custom_exponent p q exponent = Ok (e, d) ->
  e = exponent /\ (e * d) mod ((p - 1) * (q - 1)) = 1.
Proof.
  unfold calculate_keys_custom_exponent, py_mod.
  destruct (inverse exponent _) as [d'|[]]; try discriminate.
  destruct (Z.eqb_spec ((p - 1) * (q - 1)) 0); [discriminate|]. cbn [rbind].
  destruct (Z.eqb_spec ((exponent * d') mod ((p - 1) * (q - 1))) 1);
    [|discriminate].
  cbn [negb]. now intros [= <- <-].
Qed.
End Derivation.

(** ** The prime-pair search *)

Module Search.
Import Common Generate Spec Examples.

Lemma is_acceptable_iff (accurate : bool) (bits p q : Z) :
  is_acceptable accurate (bits * 2) p q = true
  <-> ~ rejected accurate bits p q.
Proof.
  unfold is_acceptable, rejected.
  destruct (Z.eqb_spec p q) as [Heq|Hne].
  - split; [discriminate|]. intros H. exfalso. apply H. now left.
  - destruct accurate; cbn [negb].
    + destruct (Z.eqb_spec (bits * 2) (bit_size (p * q))) as [Hb|Hb].
      * split; [|reflexivity]. intros _ [?|[_ ?]]; [contradiction|lia].
      * split; [discriminate|]. intros H. exfalso. apply H. right.
        split; [reflexivity|lia].
    + split; [|reflexivity]. intros _ [?|[? _]]; [contradiction|discriminate].
Qed.

Lemma is_acceptable_false_iff (accurate : bool) (bits p q : Z) :
  is_acceptable accurate (bits * 2) p q = false
  <-> rejected accurate bits p q.
Proof.
  rewrite <- Bool.not_true_iff_false, is_acceptable_iff.
  unfold rejected. split; [|tauto].
  intros H. destruct (Z.eq_dec p q); [tauto|].
  destruct accurate.
  - destruct (Z.eq_dec (bit_size (p * q)) (2 * bits)); [|tauto].
    exfalso. apply H. intros [?|[_ ?]]; contradiction.
  - exfalso. apply H. intros [?|[? _]]; [contradiction|discriminate].
Qed.

Section Loop.
Context {S : Type}.
Variable getprime_func : Z -> M S Z.
Variable accurate : bool.
Variables bits pbits qbits : Z.

(** The loop refines the alternating search: the flag [change_p] is the
    parity of the number of re-samplings made so far. *)
Lemma find_p_q_loop_sound (fuel : nat) :
  forall (p q : Z) (change_p : bool) (w : world S) pf qf wf (i : nat),
    find_p_q_loop fuel getprime_func accurate (bits * 2) pbits qbits
      p q change_p w = Some (Ok (pf, qf), wf) ->
    Nat.even i = negb change_p ->
    exists k, (k <= fuel)%nat
              /\ resamples getprime_func accurate bits pbits qbits
                   k i p q w pf qf wf.
Proof.
  induction fuel as [|fuel IH]; intros p q change_p w pf qf wf i;
    cbn [find_p_q_loop];
    destruct (is_acceptable accurate (bits * 2) p q) eqn:Hacc.
  - intros [= <- <- <-] _. exists O. split; [lia|].
    constructor. now apply is_acceptable_iff.
  - discriminate.
  - intros [= <- <- <-] _. exists O. split; [lia|].
    constructor. now apply is_acceptable_iff.
  - apply is_acceptable_false_iff in Hacc.
    unfold bind. destruct change_p; cbn [negb]; intros Hrun Hi.
    + destruct (getprime_func pbits w) as [[[p'|ex] w1]|] eqn:Hdraw;
        try discriminate.
      apply (IH _ _ _ _ _ _ _ (Datatypes.S i)) in Hrun as (k & Hk & Hs).
      * exists (Datatypes.S k). split; [lia|].
        eapply resamples_p; eauto.
      * rewrite Nat.even_succ, <- Nat.negb_even, Hi. reflexivity.
    + destruct (getprime_func qbits w) as [[[q'|ex] w1]|] eqn:Hdraw;
        try discriminate.
      apply (IH _ _ _ _ _ _ _ (Datatypes.S i)) in Hrun as (k & Hk & Hs).
      * exists (Datatypes.S k). split; [lia|].
        eapply resamples_q; eauto.
      * rewrite Nat.even_succ, <- Nat.negb_even, Hi. reflexivity.
Qed.

(** Conversely the loop finds what the alternating search finds, as soon as
    the fuel covers the number of re-samplings. *)
Lemma find_p_q_loop_complete k i p q w pf qf wf :
  resamples getprime_func accurate bits pbits qbits k i p q w pf qf wf ->
  forall fuel, (k <= fuel)%nat ->
    find_p_q_loop fuel getprime_func accurate (bits * 2) pbits qbits
      p q (negb (Nat.even i)) w = Some (Ok (pf, qf), wf).
Proof.
  induction 1 as [i p q w Hok
                 |k i p q w q' w1 pf qf wf Hi Hrej Hdraw Hs IH
                 |k i p q w p' w1 pf qf wf Hi Hrej Hdraw Hs IH];
    intros fuel Hfuel.
  - apply is_acceptable_iff in Hok.
    destruct fuel; cbn [find_p_q_loop]; now rewrite Hok.
  - apply is_acceptable_false_iff in Hrej.
    destruct fuel as [|fuel]; [lia|]. cbn [find_p_q_loop].
    rewrite Hrej, Hi. cbn [negb]. unfold bind. rewrite Hdraw.
    specialize (IH fuel ltac:(lia)).
    rewrite Nat.even_succ, <- Nat.negb_even, Hi in IH. exact IH.
  - apply is_acceptable_false_iff in Hrej.
    destruct fuel as [|fuel]; [lia|]. cbn [find_p_q_loop].
    rewrite Hrej, Hi. cbn [negb]. unfold bind. rewrite Hdraw.
    specialize (IH fuel ltac:(lia)).
    rewrite Nat.even_succ, <- Nat.negb_even, Hi in IH. exact IH.
Qed.

Lemma resamples_accepted k i p q w pf qf wf :
  resamples getprime_func accurate bits pbits qbits k i p q w pf qf wf ->
  ~ rejected accurate bits pf qf.
Proof. induction 1; auto. Qed.
End Loop.

Section FindPQ.
Context {S : Type}.
Variable getprime_func : Z -> M S Z.

(** [find_p_q] step by step: the two initial draws, then the loop. *)
Lemma find_p_q_Ok fuel nbits accurate w P Q w' :
  find_p_q fuel nbits getprime_func accurate w = Some (Ok (P, Q), w') ->
  exists p0 w1 q0 w2 pf qf,
    getprime_func (nbits + nbits / 16)
      (after_debug ("find_p_q(" +:+ fmt_int nbits +:+ "): Finding p") w)
    = Some (Ok p0, w1)
    /\ getprime_func (nbits - nbits / 16)
         (after_debug ("find_p_q(" +:+ fmt_int nbits +:+ "): Finding q") w1)
       = Some (Ok q0, w2)
    /\ find_p_q_loop fuel getprime_func accurate (nbits * 2)
         (nbits + nbits / 16) (nbits - nbits / 16) p0 q0 false w2
       = Some (Ok (pf, qf), w')
    /\ P = Z.max pf qf /\ Q = Z.min pf qf.
Proof.
  unfold find_p_q, bind, log_debug, ret, after_debug.
  destruct (getprime_func (nbits + nbits / 16) _) as [[[p0|ex] w1]|] eqn:Hp;
    try discriminate.
  destruct (getprime_func (nbits - nbits / 16) _) as [[[q0|ex] w2]|] eqn:Hq;
    try discriminate.
  destruct (find_p_q_loop _ _ _ _ _ _ p0 q0 false w2)
    as [[[[pf qf]|ex] w3]|] eqn:Hloop; try discriminate.
  intros [= <- <- <-]. exists p0, w1, q0, w2, pf, qf. repeat split; auto.
Qed.

(** The returned primes differ, in either mode. *)
Lemma find_p_q_distinct fuel nbits accurate w P Q w' :
  find_p_q fuel nbits getprime_func accurate w = Some (Ok (P, Q), w') ->
  Q < P.
Proof.
  intros (p0 & w1 & q0 & w2 & pf & qf & _ & _ & Hloop & -> & ->)%find_p_q_Ok.
  apply (find_p_q_loop_sound _ _ _ _ _ _ _ _ _ _ _ _ _ O) in Hloop
    as (k & _ & Hs); [|reflexivity].
  apply resamples_accepted in Hs.
  assert (pf <> qf) by (intros ->; apply Hs; now left). lia.
Qed.

(** C4: whenever [find_p_q(nbits, getprime_func, accurate=True)] returns
    [(p, q)], then [p > q], [p != q] and [bit_size(p * q) == 2 * nbits];
    the pair is [(max, min)] of the last pair of a search that starts from
    two draws, of [nbits + nbits // 16] and [nbits - nbits // 16] bits, and
    draws [q] again, then [p], then [q], ... on each rejected pair. *)
Theorem find_p_q_accurate fuel nbits w P Q w' :
  find_p_q fuel nbits getprime_func true w = Some (Ok (P, Q), w') ->
  P > Q /\ P <> Q /\ bit_size (P * Q) = 2 * nbits
  /\ exists p0 w1 q0 w2 k pf qf,
       getprime_func (nbits + nbits / 16)
         (after_debug ("find_p_q(" +:+ fmt_int nbits +:+ "): Finding p") w)
       = Some (Ok p0, w1)
       /\ getprime_func (nbits - nbits / 16)
            (after_debug ("find_p_q(" +:+ fmt_int nbits +:+ "): Finding q") w1)
          = Some (Ok q0, w2)
       /\ (k <= fuel)%nat
       /\ resamples getprime_func true nbits
            (nbits + nbits / 16) (nbits - nbits / 16) k 0 p0 q0 w2 pf qf w'
       /\ P = Z.max pf qf /\ Q = Z.min pf qf.
Proof.
  intros Hrun. pose proof (find_p_q_distinct _ _ _ _ _ _ _ Hrun) as Hlt.
  apply find_p_q_Ok in Hrun
    as (p0 & w1 & q0 & w2 & pf & qf & Hp & Hq & Hloop & HP & HQ).
  apply (find_p_q_loop_sound _ _ _ _ _ _ _ _ _ _ _ _ _ O) in Hloop
    as (k & Hk & Hs); [|reflexivity].
  pose proof (resamples_accepted _ _ _ _ _ _ _ _ _ _ _ _ _ Hs) as Hacc.
  split; [lia|]. split; [lia|]. split.
  - destruct (Z.eq_dec (bit_size (pf * qf)) (2 * nbits)) as [Hb|Hb].
    + subst P Q. rewrite <- Hb. f_equal. lia.
    + exfalso. apply Hacc. right. auto.
  - exists p0, w1, q0, w2, k, pf, qf. auto 10.
Qed.
End FindPQ.

(** The search the list [251; 251; 3; 241; 239] drives: the equal pair
    [(251, 251)] has [q] drawn again, [(251, 3)] has [p] drawn again,
    [(241, 3)] has [q] drawn again, and [(241, 239)] is accepted. *)
Lemma find_p_q_accurate_witness :
  find_p_q 3 8 from_list true (start [251; 251; 3; 241; 239])
  = Some (Ok (241, 239),
          World [] INFO [(DEBUG, "find_p_q(8): Finding p");
                         (DEBUG, "find_p_q(8): Finding q")])
  /\ 241 > 239 /\ bit_size (241 * 239) = 2 * 8.
Proof.
  split; [reflexivity|].
  destruct (find_p_q_accurate from_list 3 8 (start [251; 251; 3; 241; 239])
              241 239 _ eq_refl) as (H1 & _ & H2 & _).
  split; [exact H1|exact H2].
Defined.

(** X7 (termination): when the alternating search ends after [k]
    re-samplings, in either mode, [find_p_q] returns its last pair,
    ordered, with any fuel of at least [k]. *)
Lemma find_p_q_returns {S : Type} (getprime_func : Z -> M S Z)
    fuel nbits accurate w p0 w1 q0 w2 k pf qf w' :
  getprime_func (nbits + nbits / 16)
    (after_debug ("find_p_q(" +:+ fmt_int nbits +:+ "): Finding p") w)
  = Some (Ok p0, w1) ->
  getprime_func (nbits - nbits / 16)
    (after_debug ("find_p_q(" +:+ fmt_int nbits +:+ "): Finding q") w1)
  = Some (Ok q0, w2) ->
  resamples getprime_func accurate nbits
    (nbits + nbits / 16) (nbits - nbits / 16) k 0 p0 q0 w2 pf qf w' ->
  (k <= fuel)%nat ->
  find_p_q fuel nbits getprime_func accurate w
  = Some (Ok (Z.max pf qf, Z.min pf qf), w').
Proof.
  intros Hp Hq Hs Hk.
  apply find_p_q_loop_complete with (fuel := fuel) in Hs; [|exact Hk].
  cbn [Nat.even negb] in Hs.
  unfold find_p_q, bind, log_debug, ret. unfold after_debug in Hp, Hq.
  rewrite Hp, Hq, Hs. reflexivity.
Qed.
End Search.

(** ** The key-pair generator *)

Module Generator.
Import Common CommonFacts Generate Spec Examples Derivation Search.

Section NewKeys.
Context {S : Type}.
Variable getprime : Z -> M S Z.

(** Whatever [gen_keys] returns went through [find_p_q] and through the
    check of [calculate_keys_custom_exponent]. *)
Lemma gen_keys_Ok fuel nbits accurate exponent :
  forall w p q e d w',
    gen_keys fuel nbits getprime accurate exponent w
    = Some (Ok (p, q, e, d), w') ->
    q < p /\ e = exponent /\ (e * d) mod ((p - 1) * (q - 1)) = 1.
Proof.
  induction fuel as [|fuel IH]; intros w p q e d w'; cbn [gen_keys];
    [discriminate|].
  unfold bind at 1.
  destruct (find_p_q fuel (nbits / 2) getprime accurate w)
    as [[[[p0 q0]|ex] w1]|] eqn:Hfind; try discriminate.
  destruct (calculate_keys_custom_exponent p0 q0 exponent)
    as [[e0 d0]|ex] eqn:Hcalc.
  - intros [= <- <- <- <- <-].
    split; [eapply find_p_q_distinct; eassumption|].
    eapply calculate_keys_custom_exponent_Ok; eassumption.
  - destruct (is_ValueError ex); [apply IH|discriminate].
Qed.

(** [log.setLevel] does not fail. *)
Lemma set_level_returns (log_level : string) (w : world S) :
  exists w0,
    (if String.eqb log_level "DEBUG" then log_setLevel DEBUG else ret tt) w
    = Some (Ok tt, w0).
Proof. destruct (String.eqb log_level "DEBUG"); cbv; eauto. Qed.

(** [newkeys] past its two argument checks. *)
Lemma newkeys_checked fuel nbits accurate poolsize exponent log_level w :
  16 <= nbits -> 1 <= poolsize ->
  newkeys getprime fuel nbits accurate poolsize exponent log_level w
  = bind (if String.eqb log_level "DEBUG" then log_setLevel DEBUG else ret tt)
      (fun _ =>
         bind (gen_keys fuel nbits getprime accurate exponent)
           (fun x =>
              let '(p, q, e, d) := x in
              bind (lift (PrivateKey.__init__ (p * q) e d p q))
                (fun priv => ret (PublicKey.__init__ (p * q) e, priv)))) w.
Proof.
  intros Hn Hp. unfold newkeys.
  destruct (Z.ltb_spec nbits 16); [lia|].
  destruct (Z.ltb_spec poolsize 1); [lia|]. reflexivity.
Qed.

(** C1: every key pair [newkeys] returns was asked for with
    [nbits >= 16]; the public and the private key agree on [n] and [e],
    and the private key has [n == p * q],
    [(e * d) mod ((p-1)*(q-1)) == 1] and [p != q]. *)
Theorem newkeys_key_pair fuel nbits accurate poolsize exponent log_level
    w pub priv w' :
  newkeys getprime fuel nbits accurate poolsize exponent log_level w
  = Some (Ok (pub, priv), w') ->
  16 <= nbits
  /\ PublicKey.n pub = PrivateKey.n priv
  /\ PublicKey.e pub = PrivateKey.e priv
  /\ PrivateKey.n priv = PrivateKey.p priv * PrivateKey.q priv
  /\ (PrivateKey.e priv * PrivateKey.d priv)
       mod ((PrivateKey.p priv - 1) * (PrivateKey.q priv - 1)) = 1
  /\ PrivateKey.p priv <> PrivateKey.q priv.
Proof.
  unfold newkeys.
  destruct (Z.ltb_spec nbits 16) as [|Hn]; [discriminate|].
  destruct (Z.ltb_spec poolsize 1) as [|Hp]; [discriminate|].
  unfold bind at 1.
  destruct (set_level_returns log_level w) as [w0 ->].
  unfold bind at 1.
  destruct (gen_keys fuel nbits getprime accurate exponent w0)
    as [[[[[[p q] e] d]|ex] w1]|] eqn:Hgen; try discriminate.
  apply gen_keys_Ok in Hgen as (Hlt & _ & Hed).
  unfold bind, lift, ret, PrivateKey.__init__, PublicKey.__init__.
  destruct (py_mod d (p - 1)) as [exp1|ex]; cbn [rbind]; [|discriminate].
  destruct (py_mod d (q - 1)) as [exp2|ex]; cbn [rbind]; [|discriminate].
  destruct (inverse q p) as [coef|ex]; cbn [rbind]; [|discriminate].
  intros [= <- <- <-]. cbn. repeat split; auto; lia.
Qed.

(** C9: for [nbits < 16], [newkeys] raises the size error and leaves the
    world as it was: the random source has not been asked for anything,
    whatever it is; for [nbits >= 16] the call goes on to the pool-size
    check and, past it, to the generation of the key components. *)
Theorem newkeys_size_check fuel nbits accurate poolsize exponent log_level w :
  (nbits < 16 ->
   newkeys getprime fuel nbits accurate poolsize exponent log_level w
   = Some (Raise (ValueError "Key too small"), w))
  /\ (16 <= nbits -> poolsize < 1 ->
      newkeys getprime fuel nbits accurate poolsize exponent log_level w
      = Some (Raise (ValueError ("Pool size (" +:+ fmt_int poolsize
                                 +:+ ") should be >= 1")), w))
  /\ (16 <= nbits -> 1 <= poolsize ->
      newkeys getprime fuel nbits accurate poolsize exponent log_level w
      = bind (if String.eqb log_level "DEBUG" then log_setLevel DEBUG
              else ret tt)
          (fun _ =>
             bind (gen_keys fuel nbits getprime accurate exponent)
               (fun x =>
                  let '(p, q, e, d) := x in
                  bind (lift (PrivateKey.__init__ (p * q) e d p q))
                    (fun priv => ret (PublicKey.__init__ (p * q) e, priv))))
          w).
Proof.
  split; [|split].
  - intros Hn. unfold newkeys. destruct (Z.ltb_spec nbits 16); [|lia].
    reflexivity.
  - intros Hn Hp. unfold newkeys.
    destruct (Z.ltb_spec nbits 16); [lia|].
    destruct (Z.ltb_spec poolsize 1); [|lia]. reflexivity.
  - apply newkeys_checked.
Qed.

(** C10: [newkeys] raises a [ValueError] for every [poolsize < 1], and two
    calls that differ only in their [poolsize >= 1] have the same outcome
    in the same world. *)
Theorem newkeys_poolsize_unused fuel nbits accurate exponent log_level w :
  (forall poolsize, poolsize < 1 ->
     exists msg,
       newkeys getprime fuel nbits accurate poolsize exponent log_level w
       = Some (Raise (ValueError msg), w))
  /\ (forall poolsize1 poolsize2, 1 <= poolsize1 -> 1 <= poolsize2 ->
        newkeys getprime fuel nbits accurate poolsize1 exponent log_level w
        = newkeys getprime fuel nbits accurate poolsize2 exponent log_level w).
Proof.
  split.
  - intros poolsize Hp. unfold newkeys.
    destruct (Z.ltb_spec nbits 16); [eauto|].
    destruct (Z.ltb_spec poolsize 1); [eauto|lia].
  - intros poolsize1 poolsize2 H1 H2. unfold newkeys.
    destruct (Z.ltb_spec nbits 16); [reflexivity|].
    destruct (Z.ltb_spec poolsize1 1); [lia|].
    destruct (Z.ltb_spec poolsize2 1); [lia|]. reflexivity.
Qed.
End NewKeys.

(** A run of [newkeys] on the primes 251 and 241. *)
Lemma newkeys_251_241 :
  newkeys from_list 2 16 true 1 65537 "INFO" (start [251; 241])
  = Some (Ok (PublicKey.mk 60491 65537,
              PrivateKey.mk 60491 65537 33473 251 241 223 113 25),
          World [] INFO [(DEBUG, "find_p_q(8): Finding p");
                         (DEBUG, "find_p_q(8): Finding q")]).
Proof. vm_compute. reflexivity. Qed.

(** A run of [gen_keys] that has to try twice: [e = 3] is not coprime to
    [(7-1)*(5-1)], so the pair [(7, 5)] is dropped and [(11, 5)] is used. *)
Lemma gen_keys_retries :
  gen_keys 2 16 from_list false 3 (start [7; 5; 11; 5])
  = Some (Ok (11, 5, 3, 27),
          World [] INFO [(DEBUG, "find_p_q(8): Finding p");
                         (DEBUG, "find_p_q(8): Finding q");
                         (DEBUG, "find_p_q(8): Finding p");
                         (DEBUG, "find_p_q(8): Finding q")]).
Proof. vm_compute. reflexivity. Qed.

Lemma newkeys_key_pair_witness :
  newkeys from_list 2 16 true 1 65537 "INFO" (start [251; 241])
  = Some (Ok (PublicKey.mk 60491 65537,
              PrivateKey.mk 60491 65537 33473 251 241 223 113 25),
          World [] INFO [(DEBUG, "find_p_q(8): Finding p");
                         (DEBUG, "find_p_q(8): Finding q")])
  /\ 60491 = 251 * 241
  /\ (65537 * 33473) mod ((251 - 1) * (241 - 1)) = 1.
Proof.
  split; [exact newkeys_251_241|].
  destruct (newkeys_key_pair from_list 2 16 true 1 65537 "INFO"
              (start [251; 241]) _ _ _ newkeys_251_241)
    as (_ & _ & _ & Hn & Hed & _).
  split; [exact Hn|exact Hed].
Defined.

Lemma newkeys_size_check_witness :
  15 < 16
  /\ newkeys from_list 2 15 true 1 65537 "INFO" (start [251; 241])
     = Some (Raise (ValueError "Key too small"), start [251; 241]).
Proof.
  split; [lia|].
  apply (proj1 (newkeys_size_check from_list 2 15 true 1 65537 "INFO"
                  (start [251; 241]))).
  lia.
Defined.

Lemma newkeys_poolsize_unused_witness :
  (exists msg,
     newkeys from_list 2 16 true 0 65537 "INFO" (start [251; 241])
     = Some (Raise (ValueError msg), start [251; 241]))
  /\ newkeys from_list 2 16 true 1 65537 "INFO" (start [251; 241])
     = newkeys from_list 2 16 true 8 65537 "INFO" (start [251; 241]).
Proof.
  destruct (newkeys_poolsize_unused from_list 2 16 true 65537 "INFO"
              (start [251; 241])) as [Hbad Hsame].
  split; [apply Hbad; lia|apply Hsame; lia].
Defined.
End Generator.

(** ** Construction and decoding of private keys *)

Module Codec.
Import Common CommonFacts Spec Examples.

(** The constructor derives the three CRT fields from [d], [p] and [q]. *)
Lemma init_derives (n e d p q : Z) (k : PrivateKey.t) :
  PrivateKey.__init__ n e d p q = Ok k ->
  PrivateKey.n k = n /\ PrivateKey.e k = e /\ PrivateKey.d k = d
  /\ PrivateKey.p k = p /\ PrivateKey.q k = q
  /\ crt_fields_derived k.
Proof.
  unfold PrivateKey.__init__, py_mod, crt_fields_derived.
  destruct (p - 1 =? 0); [discriminate|]. cbn [rbind].
  destruct (q - 1 =? 0); [discriminate|]. cbn [rbind].
  destruct (inverse q p) as [coef|ex] eqn:Hinv; [|discriminate]. cbn [rbind].
  intros [= <-]. cbn.
  apply inverse_Ok in Hinv as Hc. tauto.
Qed.

Section Decode.
Context {S : Type}.
Variable der_decode : bytes -> result (list Z).
Variable load_pem : bytes -> string -> result bytes.

(** A decoded sequence with a nonzero version is refused. *)
Lemma load_der_bad_version keyfile version rest (w : world S) :
  der_decode keyfile = Ok (version :: rest) ->
  version <> 0 ->
  PrivateKey._load_pkcs1_der der_decode keyfile w
  = Some (Raise (ValueError ("Unable to read this file, version "
                             +:+ fmt_int version +:+ " != 0")), w).
Proof.
  intros Hdec Hv. unfold PrivateKey._load_pkcs1_der, bind, lift at 1.
  rewrite Hdec. cbn [PrivateKey.index lookup list_lookup].
  unfold lift at 1.
  destruct (Z.eqb_spec version 0); [contradiction|]. reflexivity.
Qed.

(** A decoded sequence of version 0 with nine integers goes through the
    constructor on the first five; the last three only decide whether the
    warning is logged. *)
Lemma load_der_version_0 keyfile n e d p q x1 x2 x3 rest (w : world S) :
  der_decode keyfile = Ok (0 :: n :: e :: d :: p :: q :: x1 :: x2 :: x3 :: rest) ->
  PrivateKey._load_pkcs1_der der_decode keyfile w
  = match PrivateKey.__init__ n e d p q with
    | Ok key => Some (Ok key, logged_mismatch key x1 x2 x3 w)
    | Raise ex => Some (Raise ex, w)
    end.
Proof.
  intros Hdec. unfold PrivateKey._load_pkcs1_der, bind, lift at 1.
  rewrite Hdec. cbn [PrivateKey.index lookup list_lookup].
  unfold lift at 1. cbn [Z.eqb negb].
  cbn [PrivateKey.slice Nat.sub firstn skipn PrivateKey.construct
       PrivateKey.unpack3].
  unfold lift at 1.
  destruct (PrivateKey.__init__ n e d p q) as [key|ex]; [|reflexivity].
  change (take 0 rest) with (@nil Z).
  unfold lift at 1, logged_mismatch.
  destruct ((PrivateKey.exp1 key =? x1) && (PrivateKey.exp2 key =? x2)
            && (PrivateKey.coef key =? x3)); reflexivity.
Qed.

(** What a successful decode went through. *)
Lemma load_der_Ok keyfile (w w' : world S) (k : PrivateKey.t) :
  PrivateKey._load_pkcs1_der der_decode keyfile w = Some (Ok k, w') ->
  exists n e d p q x1 x2 x3 rest,
    der_decode keyfile
    = Ok (0 :: n :: e :: d :: p :: q :: x1 :: x2 :: x3 :: rest)
    /\ PrivateKey.__init__ n e d p q = Ok k
    /\ w' = logged_mismatch k x1 x2 x3 w.
Proof.
  destruct (der_decode keyfile) as [priv|ex] eqn:Hdec.
  2:{ unfold PrivateKey._load_pkcs1_der, bind, lift at 1. rewrite Hdec.
      discriminate. }
  destruct priv as [|version rest].
  { unfold PrivateKey._load_pkcs1_der, bind, lift at 1. rewrite Hdec.
    discriminate. }
  destruct (Z.eq_dec version 0) as [->|Hv].
  2:{ rewrite (load_der_bad_version _ _ _ _ Hdec Hv). discriminate. }
  destruct rest as [|n [|e [|d [|p [|q rest]]]]];
    try (unfold PrivateKey._load_pkcs1_der, bind, lift at 1; rewrite Hdec;
         discriminate).
  destruct rest as [|x1 [|x2 [|x3 rest]]].
  4:{ rewrite (load_der_version_0 _ _ _ _ _ _ _ _ _ _ _ Hdec).
      destruct (PrivateKey.__init__ n e d p q) as [key|ex] eqn:Hinit;
        [|discriminate].
      intros [= <- <-]. exists n, e, d, p, q, x1, x2, x3, rest. auto. }
  all: unfold PrivateKey._load_pkcs1_der, bind, lift at 1; rewrite Hdec;
    cbn [PrivateKey.index lookup list_lookup]; unfold lift at 1;
    cbn [Z.eqb negb PrivateKey.slice Nat.sub firstn skipn PrivateKey.construct];
    unfold lift at 1;
    destruct (PrivateKey.__init__ n e d p q); discriminate.
Qed.

(** C6 (amended): every private key obtained from the constructor, from the
    DER decoder or from the PEM decoder has [exp1 == d mod (p-1)],
    [exp2 == d mod (q-1)] and [coef == q^-1 mod p], derived from the [d],
    [p] and [q] it was given and not from the encoded fields; state
    restoration installs the eight values of the state as they are. *)
Theorem private_key_crt_fields :
  (forall n e d p q k,
     PrivateKey.__init__ n e d p q = Ok k ->
     PrivateKey.d k = d /\ PrivateKey.p k = p /\ PrivateKey.q k = q
     /\ crt_fields_derived k)
  /\ (forall keyfile (w w' : world S) k,
        PrivateKey._load_pkcs1_der der_decode keyfile w = Some (Ok k, w') ->
        exists priv n e d p q,
          der_decode keyfile = Ok priv
          /\ firstn 6 priv = [0; n; e; d; p; q]
          /\ PrivateKey.__init__ n e d p q = Ok k
          /\ crt_fields_derived k)
  /\ (forall keyfile (w w' : world S) k,
        PrivateKey._load_pkcs1_pem der_decode load_pem keyfile w
        = Some (Ok k, w') ->
        crt_fields_derived k)
  /\ (forall self state,
        PrivateKey.__getstate__ (PrivateKey.__setstate__ self state) = state).
Proof.
  split; [|split; [|split]].
  - intros n e d p q k Hk. apply init_derives in Hk. tauto.
  - intros keyfile w w' k
      (n & e & d & p & q & x1 & x2 & x3 & rest & Hdec & Hk & _)%load_der_Ok.
    exists (0 :: n :: e :: d :: p :: q :: x1 :: x2 :: x3 :: rest), n, e, d, p, q.
    apply init_derives in Hk as Hf. repeat split; auto; apply Hf.
  - intros keyfile w w' k. unfold PrivateKey._load_pkcs1_pem, bind, lift.
    destruct (load_pem keyfile "RSA PRIVATE KEY") as [der|ex]; [|discriminate].
    intros (n & e & d & p & q & x1 & x2 & x3 & rest & _ & Hk & _)%load_der_Ok.
    now apply init_derives in Hk.
  - intros self [[[[[[[n e] d] p] q] exp1] exp2] coef]. reflexivity.
Qed.

(** C7 (amended): DER decoding raises [ValueError] whenever the decoded
    version is nonzero; with version 0 and nine decoded integers it raises
    exactly when the constructor does on [(n, e, d, p, q)], and otherwise
    returns the key the constructor built, whatever the encoded
    [exponent1], [exponent2] and [coefficient] are: a mismatch only adds
    the warning to the log. *)
Theorem load_pkcs1_der_spec keyfile priv (w : world S) :
  der_decode keyfile = Ok priv ->
  (forall version rest,
     priv = version :: rest -> version <> 0 ->
     PrivateKey._load_pkcs1_der der_decode keyfile w
     = Some (Raise (ValueError ("Unable to read this file, version "
                                +:+ fmt_int version +:+ " != 0")), w))
  /\ (forall n e d p q x1 x2 x3 rest,
        priv = 0 :: n :: e :: d :: p :: q :: x1 :: x2 :: x3 :: rest ->
        (forall key,
           PrivateKey.__init__ n e d p q = Ok key ->
           PrivateKey._load_pkcs1_der der_decode keyfile w
           = Some (Ok key, logged_mismatch key x1 x2 x3 w))
        /\ (forall ex,
              PrivateKey.__init__ n e d p q = Raise ex ->
              PrivateKey._load_pkcs1_der der_decode keyfile w
              = Some (Raise ex, w))).
Proof.
  intros Hdec. split.
  - intros version rest -> Hv. eapply load_der_bad_version; eassumption.
  - intros n e d p q x1 x2 x3 rest ->.
    rewrite (load_der_version_0 _ _ _ _ _ _ _ _ _ _ _ Hdec).
    split; intros r ->; reflexivity.
Qed.
End Decode.

(** Claim C6 as it is written fails on state restoration: the state
    [(n, e, d, p, q, 0, 0, 0)] is installed as it is, although
    [d mod (p-1)] is [55063]. *)
Lemma setstate_not_derived :
  ~ crt_fields_derived
      (PrivateKey.__setstate__ toy_key
         (3727264081, 65537, 3349121513, 65063, 57287, 0, 0, 0)).
Proof. intros [H _]. vm_compute in H. discriminate H. Qed.

Lemma private_key_crt_fields_witness :
  PrivateKey._load_pkcs1_der (decoded [0; 33; 3; 7; 11; 3; 0; 0; 0]) []
    (start [])
  = Some (Ok toy_key, after_debug PrivateKey.malformed_keyfile (start []))
  /\ crt_fields_derived toy_key.
Proof.
  split; [reflexivity|].
  destruct (private_key_crt_fields (S := list Z)
              (decoded [0; 33; 3; 7; 11; 3; 0; 0; 0])
              (fun b _ => Ok b)) as (_ & Hder & _).
  destruct (Hder [] (start []) _ toy_key eq_refl)
    as (priv & n & e & d & p & q & _ & _ & _ & Hcrt).
  exact Hcrt.
Defined.

(** Claim C7 as it is written fails: this sequence has version 0 and yet
    decoding raises, because [q = 3] has no inverse modulo [p = 3]. *)
Lemma load_pkcs1_der_version_0_raises :
  PrivateKey._load_pkcs1_der (decoded [0; 9; 3; 3; 3; 3; 1; 1; 0]) []
    (start [])
  = Some (Raise (NotRelativePrimeError 3 3 3
                   "3 and 3 are not relatively prime, divider=3"),
          start []).
Proof. reflexivity. Qed.

Lemma load_pkcs1_der_spec_witness :
  PrivateKey._load_pkcs1_der (decoded [0; 33; 3; 7; 11; 3; 7; 1; 4]) []
    (start [])
  = Some (Ok toy_key, start [])
  /\ PrivateKey._load_pkcs1_der (decoded [0; 33; 3; 7; 11; 3; 5; 5; 5]) []
       (start [])
     = Some (Ok toy_key, after_debug PrivateKey.malformed_keyfile (start []))
  /\ PrivateKey._load_pkcs1_der (decoded [1; 33; 3; 7; 11; 3; 7; 1; 4]) []
       (start [])
     = Some (Raise (ValueError "Unable to read this file, version 1 != 0"),
             start []).
Proof.
  split; [|split].
  - apply (proj2 (load_pkcs1_der_spec (decoded [0; 33; 3; 7; 11; 3; 7; 1; 4])
                    [] _ (start []) eq_refl) 33 3 7 11 3 7 1 4 [] eq_refl).
    reflexivity.
  - apply (proj2 (load_pkcs1_der_spec (decoded [0; 33; 3; 7; 11; 3; 5; 5; 5])
                    [] _ (start []) eq_refl) 33 3 7 11 3 5 5 5 [] eq_refl).
    reflexivity.
  - apply (proj1 (load_pkcs1_der_spec (decoded [1; 33; 3; 7; 11; 3; 7; 1; 4])
                    [] _ (start []) eq_refl) 1 _ eq_refl).
    lia.
Defined.
End Codec.

(** ** Format selection *)

Module Format.
Import Examples.

Section Dispatch.
Variable repr : string -> string.
Context {K : Type} `{AbstractKey.t K} `{AbstractKey.Pkcs1 K}.

(** The keys of the [methods] dictionary of [save_pkcs1], sorted and
    joined. *)
Lemma supported_formats (pem der : unit -> result bytes) :
  join ", " (sorted ((map_to_list
                        (<["DER" := der]> (<["PEM" := pem]> ∅)
                         : gmap string (unit -> result bytes))).*1))
  = "DER, PEM".
Proof. vm_compute. reflexivity. Qed.

(** C8 (amended): [save_pkcs1] is selectable through the format
    ['PEM' | 'DER'] and dispatches to the corresponding save method; for
    every other format string it raises a [ValueError] whose message names
    the supported set, ["DER, PEM"].  [load_pkcs1] is not selectable: it
    raises [NotImplementedError] for every format. *)
Theorem save_pkcs1_selectable (self : K) :
  AbstractKey.save_pkcs1 repr self "PEM" = AbstractKey._save_pkcs1_pem self
  /\ AbstractKey.save_pkcs1 repr self "DER" = AbstractKey._save_pkcs1_der self
  /\ (forall format,
        format <> "PEM" -> format <> "DER" ->
        AbstractKey.save_pkcs1 repr self format
        = Raise (ValueError ("Unsupported format: " +:+ repr format
                             +:+ ", try one of DER, PEM")))
  /\ (forall keyfile format,
        AbstractKey.load_pkcs1 (K := K) keyfile format
        = Raise (NotImplementedError
                   "Loading PEM Files not supported by this CircuitPython library.")).
Proof.
  split; [|split; [|split]].
  - unfold AbstractKey.save_pkcs1, AbstractKey._assert_format_exists.
    rewrite lookup_insert_ne, lookup_insert_eq by discriminate. reflexivity.
  - unfold AbstractKey.save_pkcs1, AbstractKey._assert_format_exists.
    rewrite lookup_insert_eq. reflexivity.
  - intros format Hpem Hder.
    unfold AbstractKey.save_pkcs1, AbstractKey._assert_format_exists.
    rewrite !lookup_insert_ne, lookup_empty by congruence.
    rewrite supported_formats. reflexivity.
  - reflexivity.
Qed.
End Dispatch.

Lemma save_pkcs1_selectable_witness :
  "JSON" <> "PEM" /\ "JSON" <> "DER"
  /\ AbstractKey.save_pkcs1 (H0 := toy_pkcs1) quoted
       (PublicKey.mk 2367317549 65537) "JSON"
     = Raise (ValueError "Unsupported format: 'JSON', try one of DER, PEM").
Proof.
  split; [discriminate|]. split; [discriminate|].
  apply (proj1 (proj2 (proj2
           (save_pkcs1_selectable (H0 := toy_pkcs1) quoted
              (PublicKey.mk 2367317549 65537))))); discriminate.
Defined.

(** Claim C8 as it is written fails in the decode direction: the format
    ["DER"] does not reach the DER method, which would have decoded this
    key, and an unsupported format does not raise a [ValueError]. *)
Lemma load_pkcs1_not_selectable :
  PrivateKey._load_pkcs1_der (decoded [0; 33; 3; 7; 11; 3; 7; 1; 4]) []
    (start [])
  = Some (Ok toy_key, start [])
  /\ AbstractKey.load_pkcs1 (K := PrivateKey.t) [] "DER"
     = Raise (NotImplementedError
                "Loading PEM Files not supported by this CircuitPython library.")
  /\ ~ (exists msg,
         AbstractKey.load_pkcs1 (K := PrivateKey.t) [] "JSON"
         = Raise (ValueError msg)).
Proof.
  split; [reflexivity|]. split; [reflexivity|].
  intros [msg Hmsg]. discriminate Hmsg.
Qed.
End Format.

(** ** Blinded operations on arbitrary input *)

Module BlindedOperations.
Import Common Core CommonFacts CoreFacts Residues Spec Examples Blinding.

Section RandomFactor.
Context {S : Type}.
Variable randint : Z -> M S Z.

(** X1: with a valid key and a blinding factor coprime to [n],
    [blinded_decrypt] returns what [decrypt_int] returns, for every
    ciphertext, whatever the factor is. *)
Theorem blinded_decrypt_is_decrypt (k : PrivateKey.t) (c r : Z)
    (w w1 : world S) :
  valid_key k ->
  randint (PrivateKey.n k - 1) w = Some (Ok r, w1) ->
  Z.gcd r (PrivateKey.n k) = 1 ->
  PrivateKey.blinded_decrypt randint k c w
  = Some (decrypt_int c (PrivateKey.d k) (PrivateKey.n k), w1)
  /\ decrypt_int c (PrivateKey.d k) (PrivateKey.n k)
     = Ok (c ^ PrivateKey.d k mod PrivateKey.n k).
Proof.
  intros Hk Hrand Hr.
  pose proof (modulus_pos _ _ _ (p_prime k Hk) (q_prime k Hk) (n_is_pq k Hk)) as Hn.
  pose proof (d_pos k Hk) as Hd.
  pose proof (unblind_decrypt_blind k c r Hk Hr) as Ht.
  assert (Hdec : decrypt_int c (PrivateKey.d k) (PrivateKey.n k)
                 = Ok (c ^ PrivateKey.d k mod PrivateKey.n k))
    by (apply fast_pow_spec; lia).
  split; [|exact Hdec].
  unfold PrivateKey.blinded_decrypt, bind, lift. rewrite Hrand, Hdec.
  destruct (AbstractKey.blind k c r) as [b|ex]; cbn [rbind] in Ht;
    [|discriminate Ht].
  destruct (decrypt_int b _ _) as [x|ex]; cbn [rbind] in Ht;
    [|discriminate Ht].
  now rewrite Ht.
Qed.

(** X2: when the random source hands out a factor that shares a divisor
    with [n], [blinded_decrypt] raises the not-coprime error of [inverse],
    carrying that divisor: nothing in [blinded_decrypt] draws again. *)
Theorem blinded_decrypt_not_coprime (k : PrivateKey.t) (c r : Z)
    (w w1 : world S) :
  0 < PrivateKey.n k -> 0 <= PrivateKey.e k -> 0 <= PrivateKey.d k ->
  randint (PrivateKey.n k - 1) w = Some (Ok r, w1) ->
  Z.gcd r (PrivateKey.n k) <> 1 ->
  exists msg,
    PrivateKey.blinded_decrypt randint k c w
    = Some (Raise (NotRelativePrimeError r (PrivateKey.n k)
                     (Z.gcd r (PrivateKey.n k)) msg), w1).
Proof.
  intros Hn He Hd Hrand Hr.
  destruct (inverse_not_coprime _ _ Hr) as [msg Hinv]. exists msg.
  unfold PrivateKey.blinded_decrypt, bind, lift. rewrite Hrand.
  unfold AbstractKey.blind, AbstractKey.unblind, decrypt_int, py_mod.
  cbn [AbstractKey.n AbstractKey.e PrivateKey.key].
  rewrite fast_pow_spec by lia. cbn [rbind].
  destruct (Z.eqb_spec (PrivateKey.n k) 0); [lia|].
  rewrite fast_pow_spec by lia. rewrite Hinv. reflexivity.
Qed.

(** X3: with a valid key and a blinding factor coprime to [n],
    [blinded_encrypt] returns [message^d mod n], whatever the factor is,
    and [encrypt_int] with the public exponent takes that back to the
    message when [0 <= message < n]. *)
Theorem blinded_encrypt_roundtrip (k : PrivateKey.t) (m r : Z)
    (w w1 : world S) :
  valid_key k ->
  randint (PrivateKey.n k - 1) w = Some (Ok r, w1) ->
  Z.gcd r (PrivateKey.n k) = 1 ->
  PrivateKey.blinded_encrypt randint k m w
  = Some (Ok (m ^ PrivateKey.d k mod PrivateKey.n k), w1)
  /\ (0 <= m < PrivateKey.n k ->
      encrypt_int (m ^ PrivateKey.d k mod PrivateKey.n k)
        (PrivateKey.e k) (PrivateKey.n k) = Ok m).
Proof.
  intros Hk Hrand Hr.
  pose proof (modulus_pos _ _ _ (p_prime k Hk) (q_prime k Hk) (n_is_pq k Hk)) as Hn.
  pose proof (unblind_decrypt_blind k m r Hk Hr) as Ht.
  split.
  - unfold PrivateKey.blinded_encrypt, bind, lift. rewrite Hrand.
    unfold encrypt_int. unfold decrypt_int in Ht.
    destruct (AbstractKey.blind k m r) as [b|ex]; cbn [rbind] in Ht;
      [|discriminate Ht].
    destruct (fast_pow b _ _) as [x|ex]; cbn [rbind] in Ht;
      [|discriminate Ht].
    now rewrite Ht.
  - intros Hm. destruct Hk as [Hp Hq Hne HN He Hd Hed]. key_fields k.
    unfold encrypt_int. rewrite fast_pow_spec by lia. f_equal.
    rewrite Z.mod_pow_l, <- Z.pow_mul_r, (Z.mul_comm d e) by lia.
    rewrite (pow_e_d p q n e d) by assumption.
    apply Z.mod_small. lia.
Qed.
End RandomFactor.

Lemma blinded_decrypt_is_decrypt_witness :
  valid_key toy_key /\ Z.gcd 5 33 = 1
  /\ PrivateKey.blinded_decrypt from_list toy_key 17 (start [5])
     = Some (decrypt_int 17 7 33, start []).
Proof.
  split; [exact toy_key_valid|]. split; [reflexivity|].
  exact (proj1 (blinded_decrypt_is_decrypt from_list toy_key 17 5
                  (start [5]) (start []) toy_key_valid eq_refl eq_refl)).
Defined.

Lemma blinded_decrypt_not_coprime_witness :
  Z.gcd 11 33 <> 1
  /\ exists msg,
       PrivateKey.blinded_decrypt from_list toy_key 8 (start [11])
       = Some (Raise (NotRelativePrimeError 11 33 (Z.gcd 11 33) msg), start []).
Proof.
  split; [discriminate|].
  exact (blinded_decrypt_not_coprime from_list toy_key 8 11
           (start [11]) (start []) ltac:(cbn; lia) ltac:(cbn; lia)
           ltac:(cbn; lia) eq_refl ltac:(discriminate)).
Defined.

Lemma blinded_encrypt_roundtrip_witness :
  valid_key toy_key /\ 0 <= 2 < 33
  /\ PrivateKey.blinded_encrypt from_list toy_key 2 (start [5])
     = Some (Ok (2 ^ 7 mod 33), start [])
  /\ encrypt_int (2 ^ 7 mod 33) 3 33 = Ok 2.
Proof.
  split; [exact toy_key_valid|]. split; [lia|].
  destruct (blinded_encrypt_roundtrip from_list toy_key 2 5
              (start [5]) (start []) toy_key_valid eq_refl eq_refl)
    as [Hsign Hverify].
  split; [exact Hsign|]. apply Hverify. cbn. lia.
Defined.
End BlindedOperations.

(** ** Key derivation and the retry loop *)

Module Retry.
Import Common CommonFacts Generate Spec Examples Derivation Search Generator.



(** X4: for [phi = (p-1)*(q-1) >= 2] the key derivation succeeds whenever
    the exponent is coprime to [phi], with [0 <= d < phi], and it never
    raises the internal-consistency [ValueError]. *)
Theorem calculate_keys_succeeds (p q exponent : Z) :
  2 <= (p - 1) * (q - 1) ->
  (Z.gcd exponent ((p - 1) * (q - 1)) = 1 ->
   exists d,
     calculate_keys_custom_exponent p q exponent = Ok (exponent, d)
     /\ 0 <= d < (p - 1) * (q - 1)
     /\ (exponent * d) mod ((p - 1) * (q - 1)) = 1)
  /\ (forall msg,
        calculate_keys_custom_exponent p q exponent <> Raise (ValueError msg)).
Proof.
  intros Hphi. unfold calculate_keys_custom_exponent, py_mod.
  set (phi_n := (p - 1) * (q - 1)) in *. clearbody phi_n.
  destruct (Z.eqb_spec phi_n 0); [lia|]. cbn [rbind].
  assert (Hok : Z.gcd exponent phi_n = 1 ->
                exists d, inverse exponent phi_n = Ok d
                          /\ 0 <= d < phi_n
                          /\ (exponent * d) mod phi_n = 1).
  { intros Hg. destruct (inverse_coprime _ _ Hg) as (d & Hd & Hm & Hr).
    exists d. rewrite Z.mod_1_l in Hm by lia. auto with zarith. }
  split.
  - intros Hg. destruct (Hok Hg) as (d & -> & Hr & Hm).
    exists d. rewrite Hm. auto.
  - intros msg. destruct (Z.eq_dec (Z.gcd exponent phi_n) 1) as [Hg|Hg].
    + destruct (Hok Hg) as (d & -> & _ & ->). discriminate.
    + destruct (inverse_not_coprime _ _ Hg) as [msg' ->]. discriminate.
Qed.

Lemma calculate_keys_succeeds_witness :
  2 <= (11 - 1) * (3 - 1)
  /\ exists d,
       calculate_keys_custom_exponent 11 3 3 = Ok (3, d)
       /\ 0 <= d < (11 - 1) * (3 - 1)
       /\ (3 * d) mod ((11 - 1) * (3 - 1)) = 1.
Proof.
  split; [lia|].
  apply (proj1 (calculate_keys_succeeds 11 3 3 ltac:(lia))). reflexivity.
Defined.

Section GoodSource.
Context {S : Type}.
Variable getprime_func : Z -> M S Z.
(** The source answers every request it finishes with an integer greater
    than 1. *)
Hypothesis source_ok :
  forall bits w r w',
    getprime_func bits w = Some (r, w') -> exists x, r = Ok x /\ 1 < x.



End GoodSource.



End Retry.

(** ** The search without the bit-size check, and termination *)

Module RelaxedSearch.
Import Common Generate Spec Examples Search.

Section FindPQ.
Context {S : Type}.
Variable getprime_func : Z -> M S Z.

(** X6: with [accurate=False] the size of the product is not looked at:
    whenever [find_p_q] returns [(p, q)], then [p > q]; a pair was drawn
    again only when its primes were equal; and when the two initial draws
    differ they are returned, ordered, without any further draw. *)
Theorem find_p_q_not_accurate fuel nbits w P Q w' :
  find_p_q fuel nbits getprime_func false w = Some (Ok (P, Q), w') ->
  P > Q
  /\ exists p0 w1 q0 w2 k pf qf,
       getprime_func (nbits + nbits / 16)
         (after_debug ("find_p_q(" +:+ fmt_int nbits +:+ "): Finding p") w)
       = Some (Ok p0, w1)
       /\ getprime_func (nbits - nbits / 16)
            (after_debug ("find_p_q(" +:+ fmt_int nbits +:+ "): Finding q") w1)
          = Some (Ok q0, w2)
       /\ resamples getprime_func false nbits
            (nbits + nbits / 16) (nbits - nbits / 16) k 0 p0 q0 w2 pf qf w'
       /\ P = Z.max pf qf /\ Q = Z.min pf qf
       /\ (p0 <> q0 -> k = O /\ pf = p0 /\ qf = q0 /\ w' = w2).
Proof.
  intros Hrun. pose proof (find_p_q_distinct _ _ _ _ _ _ _ _ Hrun) as Hlt.
  apply find_p_q_Ok in Hrun
    as (p0 & w1 & q0 & w2 & pf & qf & Hp & Hq & Hloop & HP & HQ).
  apply (find_p_q_loop_sound _ _ _ _ _ _ _ _ _ _ _ _ _ O) in Hloop
    as (k & Hk & Hs); [|reflexivity].
  split; [lia|].
  exists p0, w1, q0, w2, k, pf, qf.
  do 5 (split; [assumption|]).
  intros Hne. inversion Hs; subst; auto;
    match goal with
    | H : rejected false _ _ _ |- _ =>
        destruct H as [?|[? _]]; [contradiction|discriminate]
    end.
Qed.
End FindPQ.

Lemma find_p_q_not_accurate_witness :
  find_p_q 0 8 from_list false (start [251; 3])
  = Some (Ok (251, 3),
          World [] INFO [(DEBUG, "find_p_q(8): Finding p");
                         (DEBUG, "find_p_q(8): Finding q")])
  /\ 251 > 3.
Proof.
  split; [reflexivity|].
  exact (proj1 (find_p_q_not_accurate from_list 0 8 (start [251; 3])
                  251 3 _ eq_refl)).
Defined.

(** The search that the list [251; 251; 241] drives: one re-sampling. *)
Lemma resamples_251_251_241 :
  resamples from_list true 8 8 8 1 0 251 251
    (World [241] INFO [(DEBUG, "find_p_q(8): Finding p");
                       (DEBUG, "find_p_q(8): Finding q")])
    251 241
    (World [] INFO [(DEBUG, "find_p_q(8): Finding p");
                    (DEBUG, "find_p_q(8): Finding q")]).
Proof.
  eapply resamples_q; [reflexivity|now left|reflexivity|].
  apply resamples_done. intros [H|[_ H]]; [discriminate H|].
  apply H. reflexivity.
Qed.

Lemma find_p_q_returns_witness :
  find_p_q 1 8 from_list true (start [251; 251; 241])
  = Some (Ok (Z.max 251 241, Z.min 251 241),
          World [] INFO [(DEBUG, "find_p_q(8): Finding p");
                         (DEBUG, "find_p_q(8): Finding q")]).
Proof.
  exact (find_p_q_returns from_list 1 8 true (start [251; 251; 241])
           251 _ 251 _ 1%nat 251 241 _ eq_refl eq_refl
           resamples_251_251_241 (le_n 1)).
Defined.
End RelaxedSearch.

(** ** What [newkeys] returns, and when *)

Module NewKeys.
Import Common CommonFacts Generate Spec Examples Search Generator Codec.

Section Source.
Context {S : Type}.
Variable getprime : Z -> M S Z.

(** A returned pair of keys, step by step. *)
Lemma newkeys_Ok fuel nbits accurate poolsize exponent log_level
    (w w' : world S) pub priv :
  newkeys getprime fuel nbits accurate poolsize exponent log_level w
  = Some (Ok (pub, priv), w') ->
  exists p q e d,
    gen_keys fuel nbits getprime accurate exponent (with_level log_level w)
    = Some (Ok (p, q, e, d), w')
    /\ PrivateKey.__init__ (p * q) e d p q = Ok priv
    /\ pub = PublicKey.mk (p * q) e.
Proof.
  unfold newkeys, with_level.
  destruct (nbits <? 16); [discriminate|].
  destruct (poolsize <? 1); [discriminate|].
  unfold bind at 1.
  assert (Hlevel : (if String.eqb log_level "DEBUG"
                    then log_setLevel DEBUG else ret tt) w
                   = Some (Ok tt, if String.eqb log_level "DEBUG"
                                  then World (rng w) DEBUG (log_calls w)
                                  else w))
    by (destruct (String.eqb log_level "DEBUG"); reflexivity).
  rewrite Hlevel. unfold bind at 1.
  destruct (gen_keys _ _ _ _ _ _) as [[[[[[p q] e] d]|ex] w1]|];
    try discriminate.
  unfold bind, lift, ret.
  destruct (PrivateKey.__init__ (p * q) e d p q) as [k|ex] eqn:Hinit;
    [|discriminate].
  intros [= <- <- <-]. exists p, q, e, d. auto.
Qed.

(** A pair the key derivation accepts has [phi <> 0]. *)
Lemma calculate_keys_phi (p q exponent e d : Z) :
  calculate_keys_custom_exponent p q exponent = Ok (e, d) ->
  (p - 1) * (q - 1) <> 0.
Proof.
  unfold calculate_keys_custom_exponent, py_mod.
  destruct (inverse exponent _) as [d'|[]]; try discriminate.
  destruct (Z.eqb_spec ((p - 1) * (q - 1)) 0); [discriminate|auto].
Qed.

Lemma gen_keys_phi fuel nbits accurate exponent :
  forall (w w' : world S) p q e d,
    gen_keys fuel nbits getprime accurate exponent w
    = Some (Ok (p, q, e, d), w') ->
    (p - 1) * (q - 1) <> 0.
Proof.
  induction fuel as [|fuel IH]; intros w w' p q e d; cbn [gen_keys];
    [discriminate|].
  unfold bind at 1.
  destruct (find_p_q fuel (nbits / 2) getprime accurate w)
    as [[[[p0 q0]|ex] w1]|]; try discriminate.
  destruct (calculate_keys_custom_exponent p0 q0 exponent)
    as [[e0 d0]|ex] eqn:Hcalc.
  - intros [= <- <- <- <- <-]. eapply calculate_keys_phi; eassumption.
  - destruct (is_ValueError ex); [apply IH|discriminate].
Qed.

(** X8: every pair of keys [newkeys] returns carries the exponent that was
    asked for, has [p > q], has its CRT fields derived from [d], [p] and
    [q], and its public key is [(n, e)] of the private key. *)
Theorem newkeys_key_fields fuel nbits accurate poolsize exponent log_level
    (w w' : world S) pub priv :
  newkeys getprime fuel nbits accurate poolsize exponent log_level w
  = Some (Ok (pub, priv), w') ->
  PrivateKey.e priv = exponent
  /\ PrivateKey.p priv > PrivateKey.q priv
  /\ crt_fields_derived priv
  /\ pub = PublicKey.mk (PrivateKey.n priv) (PrivateKey.e priv).
Proof.
  intros (p & q & e & d & Hgen & Hinit & ->)%newkeys_Ok.
  apply gen_keys_Ok in Hgen as (Hlt & -> & _).
  apply init_derives in Hinit as (-> & -> & _ & -> & -> & Hcrt).
  repeat split; auto; try apply Hcrt. lia.
Qed.

(** X9: once its two checks are passed, [newkeys] returns as soon as
    [gen_keys] does, provided the two integers found are coprime, as two
    different primes are: the keys are built from what [gen_keys]
    returned. *)
Theorem newkeys_returns fuel nbits accurate poolsize exponent log_level
    (w w' : world S) p q e d :
  16 <= nbits -> 1 <= poolsize ->
  gen_keys fuel nbits getprime accurate exponent (with_level log_level w)
  = Some (Ok (p, q, e, d), w') ->
  Z.gcd q p = 1 ->
  exists coef,
    newkeys getprime fuel nbits accurate poolsize exponent log_level w
    = Some (Ok (PublicKey.mk (p * q) e,
                PrivateKey.mk (p * q) e d p q
                  (d mod (p - 1)) (d mod (q - 1)) coef), w')
    /\ (q * coef) mod p = 1 mod p.
Proof.
  intros Hn Hpool Hgen Hcop.
  destruct (inverse_coprime q p Hcop) as (coef & Hinv & Hmod & _).
  exists coef. split; [|exact Hmod].
  rewrite newkeys_checked by assumption.
  unfold bind at 1.
  assert (Hlevel : (if String.eqb log_level "DEBUG"
                    then log_setLevel DEBUG else ret tt) w
                   = Some (Ok tt, with_level log_level w))
    by (unfold with_level; destruct (String.eqb log_level "DEBUG");
        reflexivity).
  rewrite Hlevel. unfold bind at 1. rewrite Hgen.
  apply gen_keys_phi in Hgen as Hphi.
  unfold bind, lift, ret, PrivateKey.__init__, PublicKey.__init__, py_mod.
  destruct (Z.eqb_spec (p - 1) 0); [nia|].
  destruct (Z.eqb_spec (q - 1) 0); [nia|].
  cbn [rbind]. rewrite Hinv. reflexivity.
Qed.
End Source.

Lemma newkeys_key_fields_witness :
  PrivateKey.e (PrivateKey.mk 60491 65537 33473 251 241 223 113 25) = 65537
  /\ 251 > 241
  /\ crt_fields_derived (PrivateKey.mk 60491 65537 33473 251 241 223 113 25).
Proof.
  destruct (newkeys_key_fields from_list 2 16 true 1 65537 "INFO"
              (start [251; 241]) _ _ _ newkeys_251_241)
    as (He & Hpq & Hcrt & _).
  split; [exact He|]. split; [exact Hpq|exact Hcrt].
Defined.

(** The run of [gen_keys] behind [newkeys_251_241]. *)
Lemma gen_keys_251_241 :
  gen_keys 2 16 from_list true 65537
    (with_level "INFO" (start [251; 241]))
  = Some (Ok (251, 241, 65537, 33473),
          World [] INFO [(DEBUG, "find_p_q(8): Finding p");
                         (DEBUG, "find_p_q(8): Finding q")]).
Proof. vm_compute. reflexivity. Qed.

Lemma newkeys_returns_witness :
  Z.gcd 241 251 = 1
  /\ exists coef,
       newkeys from_list 2 16 true 1 65537 "INFO" (start [251; 241])
       = Some (Ok (PublicKey.mk (251 * 241) 65537,
                   PrivateKey.mk (251 * 241) 65537 33473 251 241
                     (33473 mod (251 - 1)) (33473 mod (241 - 1)) coef),
               World [] INFO [(DEBUG, "find_p_q(8): Finding p");
                              (DEBUG, "find_p_q(8): Finding q")])
       /\ (241 * coef) mod 251 = 1 mod 251.
Proof.
  split; [reflexivity|].
  exact (newkeys_returns from_list 2 16 true 1 65537 "INFO"
           (start [251; 241]) _ 251 241 65537 33473
           ltac:(lia) ltac:(lia) gen_keys_251_241 eq_refl).
Defined.
End NewKeys.

(** ** Equality and state of key objects *)

Module KeyObjects.
Import Common CommonFacts Spec Examples Dynamic.

Lemma PublicKey_eq_iff (a b : PublicKey.t) :
  PublicKey.__eq__ a b = true <-> a = b.
Proof.
  destruct a as [n e], b as [n' e']. unfold PublicKey.__eq__. cbn.
  rewrite andb_true_iff, !Z.eqb_eq. split.
  - now intros [-> ->].
  - now intros [= -> ->].
Qed.

Lemma PrivateKey_eq_iff (a b : PrivateKey.t) :
  PrivateKey.__eq__ a b = true <-> a = b.
Proof.
  destruct a, b. unfold PrivateKey.__eq__. cbn.
  rewrite !andb_true_iff, !Z.eqb_eq. split.
  - intros [[[[[[[-> ->] ->] ->] ->] ->] ->] ->]. reflexivity.
  - intros [= -> -> -> -> -> -> -> ->]. tauto.
Qed.

(** X10: [__eq__] holds exactly between keys of the same class whose
    fields all agree, the eight fields for a private key and the two for a
    public key; it is false against [None], against a key of the other
    class and against any other object; [__ne__] is its negation. *)
Theorem eq_is_field_equality :
  (forall (self : PrivateKey.t) (other : object),
     (PrivateKey__eq__ self other = true <-> other = Private self)
     /\ (PrivateKey__ne__ self other = true <-> other <> Private self))
  /\ (forall (self : PublicKey.t) (other : object),
        (PublicKey__eq__ self other = true <-> other = Public self)
        /\ (PublicKey__ne__ self other = true <-> other <> Public self)).
Proof.
  assert (Hpriv : forall self other,
             PrivateKey__eq__ self other = true <-> other = Private self).
  { intros self [| |k|]; cbn; try (split; discriminate).
    rewrite PrivateKey_eq_iff. split; [now intros ->|now intros [= ->]]. }
  assert (Hpub : forall self other,
             PublicKey__eq__ self other = true <-> other = Public self).
  { intros self [|k| |]; cbn; try (split; discriminate).
    rewrite PublicKey_eq_iff. split; [now intros ->|now intros [= ->]]. }
  split; intros self other; (split; [auto|]).
  - unfold PrivateKey__ne__. rewrite negb_true_iff, <- Hpriv.
    now destruct (PrivateKey__eq__ self other).
  - unfold PublicKey__ne__. rewrite negb_true_iff, <- Hpub.
    now destruct (PublicKey__eq__ self other).
Qed.

(** X11: [__setstate__] on the state that [__getstate__] gave restores the
    key, whatever object it is restored into, and [__getstate__] gives
    back the state that [__setstate__] installed: pickling loses nothing
    and checks nothing. *)
Theorem state_round_trip :
  (forall (self k : PrivateKey.t),
     PrivateKey.__setstate__ self (PrivateKey.__getstate__ k) = k)
  /\ (forall (self k : PublicKey.t),
        PublicKey.__setstate__ self (PublicKey.__getstate__ k) = k)
  /\ (forall (self : PublicKey.t) state,
        PublicKey.__getstate__ (PublicKey.__setstate__ self state) = state).
Proof.
  split; [|split].
  - intros self []. reflexivity.
  - intros self []. reflexivity.
  - intros self []. reflexivity.
Qed.

(** X12: the constructor of [PrivateKey] raises [ZeroDivisionError] when
    [p] or [q] is 1, raises the not-coprime error carrying [gcd(q, p)]
    when [q] has no inverse modulo [p], and succeeds in every other case,
    with the five arguments stored and the three CRT fields derived. *)
Theorem init_outcomes (n e d p q : Z) :
  (p = 1 \/ q = 1 -> PrivateKey.__init__ n e d p q = Raise ZeroDivisionError)
  /\ (p <> 1 -> q <> 1 -> Z.gcd q p <> 1 ->
      exists msg,
        PrivateKey.__init__ n e d p q
        = Raise (NotRelativePrimeError q p (Z.gcd q p) msg))
  /\ (p <> 1 -> q <> 1 -> Z.gcd q p = 1 ->
      exists coef,
        PrivateKey.__init__ n e d p q
        = Ok (PrivateKey.mk n e d p q (d mod (p - 1)) (d mod (q - 1)) coef)
        /\ (q * coef) mod p = 1 mod p).
Proof.
  unfold PrivateKey.__init__, py_mod. split; [|split].
  - intros [-> | ->]; [reflexivity|].
    destruct (p - 1 =? 0); reflexivity.
  - intros Hp Hq Hg.
    destruct (Z.eqb_spec (p - 1) 0); [lia|].
    destruct (Z.eqb_spec (q - 1) 0); [lia|]. cbn [rbind].
    destruct (inverse_not_coprime _ _ Hg) as [msg ->]. eauto.
  - intros Hp Hq Hg.
    destruct (Z.eqb_spec (p - 1) 0); [lia|].
    destruct (Z.eqb_spec (q - 1) 0); [lia|]. cbn [rbind].
    destruct (inverse_coprime _ _ Hg) as (coef & -> & Hm & _). eauto.
Qed.

Lemma init_outcomes_witness :
  PrivateKey.__init__ 5 3 3 1 5 = Raise ZeroDivisionError
  /\ (exists msg,
        PrivateKey.__init__ 9 3 3 3 3
        = Raise (NotRelativePrimeError 3 3 (Z.gcd 3 3) msg))
  /\ exists coef,
       PrivateKey.__init__ 33 3 7 11 3
       = Ok (PrivateKey.mk 33 3 7 11 3 (7 mod (11 - 1)) (7 mod (3 - 1)) coef)
       /\ (3 * coef) mod 11 = 1 mod 11.
Proof.
  split; [|split].
  - apply (proj1 (init_outcomes 5 3 3 1 5)). now left.
  - apply (proj1 (proj2 (init_outcomes 9 3 3 3 3))); discriminate.
  - apply (proj2 (proj2 (init_outcomes 33 3 7 11 3)));
      [discriminate|discriminate|reflexivity].
Defined.
End KeyObjects.

(** ** Saving and loading keys *)

Module RoundTrip.
Import Common CommonFacts Spec Examples Codec.

Lemma logged_mismatch_same {S : Type} (k : PrivateKey.t) (w : world S) :
  logged_mismatch k (PrivateKey.exp1 k) (PrivateKey.exp2 k)
    (PrivateKey.coef k) w = w.
Proof. unfold logged_mismatch. now rewrite !Z.eqb_refl. Qed.

Section PrivateCodec.
Context {S : Type}.
Variable der_decode : bytes -> result (list Z).
Variable der_encode : list Z -> result bytes.
Variable load_pem : bytes -> string -> result bytes.
Variable save_pem : bytes -> string -> result bytes.
Variable repr : string -> string.

(** X13: what [save_pkcs1("DER")] wrote, [_load_pkcs1_der] reads back as
    the key the constructor builds from [n, e, d, p, q] of the saved key,
    provided the decoder undoes the encoder on these bytes.  For a key
    that came from the constructor this is the saved key itself and
    nothing is logged; for a key whose CRT fields were set otherwise, the
    fields come back derived and the warning is logged. *)
Theorem der_round_trip (self key : PrivateKey.t) (der : bytes) (w : world S) :
  AbstractKey.save_pkcs1 (H0 := PrivateKey.pkcs1 der_encode save_pem)
    repr self "DER" = Ok der ->
  (forall l, der_encode l = Ok der -> der_decode der = Ok l) ->
  PrivateKey.__init__ (PrivateKey.n self) (PrivateKey.e self)
    (PrivateKey.d self) (PrivateKey.p self) (PrivateKey.q self) = Ok key ->
  PrivateKey._load_pkcs1_der der_decode der w
  = Some (Ok key,
          logged_mismatch key (PrivateKey.exp1 self) (PrivateKey.exp2 self)
            (PrivateKey.coef self) w)
  /\ (key = self ->
      PrivateKey._load_pkcs1_der der_decode der w = Some (Ok self, w)).
Proof.
  intros Hsave Hcodec Hinit.
  unfold AbstractKey.save_pkcs1, AbstractKey._assert_format_exists in Hsave.
  rewrite lookup_insert_eq in Hsave. cbn [rbind] in Hsave.
  apply Hcodec in Hsave.
  pose proof (load_der_version_0 der_decode der _ _ _ _ _ _ _ _ _ w Hsave)
    as Hload.
  rewrite Hinit in Hload. split; [exact Hload|].
  intros ->. now rewrite Hload, logged_mismatch_same.
Qed.

(** X14: the same through PEM: [save_pkcs1("PEM")] and [_load_pkcs1_pem]
    use the same marker, so that the key comes back whenever [load_pem]
    undoes [save_pem] and the DER decoder undoes the DER encoder. *)
Theorem pem_round_trip (self key : PrivateKey.t) (pem : bytes) (w : world S) :
  AbstractKey.save_pkcs1 (H0 := PrivateKey.pkcs1 der_encode save_pem)
    repr self "PEM" = Ok pem ->
  (forall der marker,
     save_pem der marker = Ok pem -> load_pem pem marker = Ok der) ->
  (forall l der, der_encode l = Ok der -> der_decode der = Ok l) ->
  PrivateKey.__init__ (PrivateKey.n self) (PrivateKey.e self)
    (PrivateKey.d self) (PrivateKey.p self) (PrivateKey.q self) = Ok key ->
  PrivateKey._load_pkcs1_pem der_decode load_pem pem w
  = Some (Ok key,
          logged_mismatch key (PrivateKey.exp1 self) (PrivateKey.exp2 self)
            (PrivateKey.coef self) w).
Proof.
  intros Hsave Hpem Hcodec Hinit.
  unfold AbstractKey.save_pkcs1, AbstractKey._assert_format_exists in Hsave.
  rewrite lookup_insert_ne, lookup_insert_eq in Hsave by discriminate.
  cbn [rbind AbstractKey._save_pkcs1_pem PrivateKey.pkcs1] in Hsave.
  unfold PrivateKey._save_pkcs1_pem, PrivateKey._save_pkcs1_der in Hsave.
  destruct (der_encode _) as [der|ex] eqn:Hder; [|discriminate Hsave].
  cbn [rbind] in Hsave.
  apply Hpem in Hsave. apply Hcodec in Hder.
  unfold PrivateKey._load_pkcs1_pem, bind, lift at 1. rewrite Hsave.
  rewrite (load_der_version_0 der_decode der _ _ _ _ _ _ _ _ _ w Hder).
  now rewrite Hinit.
Qed.

(** X15: [_load_pkcs1_der] always finishes; when it raises, the world is
    as it was, so that the warning is only ever logged with a returned
    key; and when it returns a key, the decoded sequence had version 0 and
    at least nine integers, the key is what the constructor made of the
    five after the version, and the random source and the log level are
    untouched. *)
Theorem load_pkcs1_der_outcomes (keyfile : bytes) (w : world S) :
  PrivateKey._load_pkcs1_der der_decode keyfile w <> None
  /\ (forall ex w',
        PrivateKey._load_pkcs1_der der_decode keyfile w
        = Some (Raise ex, w') -> w' = w)
  /\ (forall k w',
        PrivateKey._load_pkcs1_der der_decode keyfile w = Some (Ok k, w') ->
        exists n e d p q x1 x2 x3 rest,
          der_decode keyfile
          = Ok (0 :: n :: e :: d :: p :: q :: x1 :: x2 :: x3 :: rest)
          /\ PrivateKey.__init__ n e d p q = Ok k
          /\ w' = logged_mismatch k x1 x2 x3 w
          /\ rng w' = rng w /\ log_level w' = log_level w).
Proof.
  split; [|split].
  - unfold PrivateKey._load_pkcs1_der, bind, lift at 1.
    destruct (der_decode keyfile) as [[|version rest]|ex]; try discriminate.
    cbn [PrivateKey.index lookup list_lookup]. unfold lift at 1.
    destruct (version =? 0); cbn [negb]; [|discriminate].
    unfold lift at 1.
    destruct (PrivateKey.construct _) as [key|ex]; [|discriminate].
    unfold lift at 1.
    destruct (PrivateKey.unpack3 _) as [[[x1 x2] x3]|ex]; [|discriminate].
    destruct (negb _); discriminate.
  - intros ex w'. unfold PrivateKey._load_pkcs1_der, bind, lift at 1.
    destruct (der_decode keyfile) as [[|version rest]|ex0];
      try (now intros [= _ <-]).
    cbn [PrivateKey.index lookup list_lookup]. unfold lift at 1.
    destruct (version =? 0); cbn [negb]; [|now intros [= _ <-]].
    unfold lift at 1.
    destruct (PrivateKey.construct _) as [key|ex0]; [|now intros [= _ <-]].
    unfold lift at 1.
    destruct (PrivateKey.unpack3 _) as [[[x1 x2] x3]|ex0];
      [|now intros [= _ <-]].
    destruct (negb _); discriminate.
  - intros k w'
      (n & e & d & p & q & x1 & x2 & x3 & rest & Hdec & Hk & ->)%load_der_Ok.
    exists n, e, d, p, q, x1, x2, x3, rest.
    repeat split; auto; unfold logged_mismatch;
      destruct (_ && _); reflexivity.
Qed.
End PrivateCodec.

Lemma encoded_decoded (priv l : list Z) (der : bytes) :
  encoded priv l = Ok der -> decoded priv der = Ok l.
Proof.
  unfold encoded, decoded. case_bool_decide; [|discriminate].
  now subst.
Qed.

Lemma der_round_trip_witness :
  PrivateKey._load_pkcs1_der (decoded [0; 33; 3; 7; 11; 3; 7; 1; 4]) []
    (start [])
  = Some (Ok toy_key, start [])
  /\ PrivateKey._load_pkcs1_der (decoded [0; 33; 3; 7; 11; 3; 0; 0; 0]) []
       (start [])
     = Some (Ok toy_key, after_debug PrivateKey.malformed_keyfile (start [])).
Proof.
  split.
  - apply (proj2 (der_round_trip (decoded [0; 33; 3; 7; 11; 3; 7; 1; 4])
                    (encoded [0; 33; 3; 7; 11; 3; 7; 1; 4]) plain_pem quoted
                    toy_key toy_key [] (start []) eq_refl
                    (fun l => encoded_decoded _ l []) eq_refl)).
    reflexivity.
  - exact (proj1 (der_round_trip (decoded [0; 33; 3; 7; 11; 3; 0; 0; 0])
                    (encoded [0; 33; 3; 7; 11; 3; 0; 0; 0]) plain_pem quoted
                    tampered_key toy_key [] (start []) eq_refl
                    (fun l => encoded_decoded _ l []) eq_refl)).
Defined.

Lemma pem_round_trip_witness :
  PrivateKey._load_pkcs1_pem (decoded [0; 33; 3; 7; 11; 3; 7; 1; 4])
    plain_pem [] (start [])
  = Some (Ok toy_key, start []).
Proof.
  exact (pem_round_trip (decoded [0; 33; 3; 7; 11; 3; 7; 1; 4])
           (encoded [0; 33; 3; 7; 11; 3; 7; 1; 4]) plain_pem plain_pem quoted
           toy_key toy_key [] (start []) eq_refl
           ltac:(now intros der marker [= <-])
           (fun l der => encoded_decoded _ l der) eq_refl).
Defined.

Lemma load_pkcs1_der_outcomes_witness :
  PrivateKey._load_pkcs1_der (decoded [0; 33; 3; 7; 11; 3; 0; 0; 0]) []
    (start [5])
  = Some (Ok toy_key, after_debug PrivateKey.malformed_keyfile (start [5]))
  /\ rng (after_debug PrivateKey.malformed_keyfile (start [5])) = [5]
  /\ log_level (after_debug PrivateKey.malformed_keyfile (start [5])) = INFO.
Proof.
  split; [reflexivity|].
  destruct (proj2 (proj2 (load_pkcs1_der_outcomes
                            (decoded [0; 33; 3; 7; 11; 3; 0; 0; 0]) []
                            (start [5]))) toy_key _ eq_refl)
    as (n & e & d & p & q & x1 & x2 & x3 & rest & _ & _ & _ & Hrng & Hlevel).
  split; [exact Hrng|exact Hlevel].
Defined.
End RoundTrip.

(** ** Public keys: saving, loading and the OpenSSL wrapper *)

Module PublicCodec.
Import Examples.

Section Codec.
Variable der_encode : list Z -> result bytes.
Variable save_pem : bytes -> string -> result bytes.
Variable der_decode : bytes -> result (Z * Z).
Variable der_decode_openssl : bytes -> result (list Z * bytes).
Variable load_pem : bytes -> string -> result bytes.
Variable repr : string -> string.

(** X16: a public key saved with [save_pkcs1], as DER or as PEM, is read
    back by [_load_pkcs1_der], respectively [_load_pkcs1_pem], as the same
    key: the two integers are written and read in the same order, and the
    PEM marker is the same in both directions, provided the decoder and
    [load_pem] undo the encoder and [save_pem]. *)
Theorem public_round_trip (self : PublicKey.t) :
  (forall n e der,
     der_encode [n; e] = Ok der -> der_decode der = Ok (n, e)) ->
  (forall der marker pem,
     save_pem der marker = Ok pem -> load_pem pem marker = Ok der) ->
  (forall der,
     AbstractKey.save_pkcs1 (H0 := PublicKey.pkcs1 der_encode save_pem)
       repr self "DER" = Ok der ->
     PublicKey._load_pkcs1_der der_decode der = Ok self)
  /\ (forall pem,
        AbstractKey.save_pkcs1 (H0 := PublicKey.pkcs1 der_encode save_pem)
          repr self "PEM" = Ok pem ->
        PublicKey._load_pkcs1_pem der_decode load_pem pem = Ok self).
Proof.
  intros Hcodec Hpem.
  assert (Hder : forall der,
             PublicKey._save_pkcs1_der der_encode self = Ok der ->
             PublicKey._load_pkcs1_der der_decode der = Ok self).
  { intros der Hsave. unfold PublicKey._save_pkcs1_der in Hsave.
    apply Hcodec in Hsave.
    unfold PublicKey._load_pkcs1_der. rewrite Hsave. now destruct self. }
  split.
  - intros der Hsave.
    unfold AbstractKey.save_pkcs1, AbstractKey._assert_format_exists in Hsave.
    rewrite lookup_insert_eq in Hsave. now apply Hder.
  - intros pem Hsave.
    unfold AbstractKey.save_pkcs1, AbstractKey._assert_format_exists in Hsave.
    rewrite lookup_insert_ne, lookup_insert_eq in Hsave by discriminate.
    cbn [rbind AbstractKey._save_pkcs1_pem PublicKey.pkcs1] in Hsave.
    unfold PublicKey._save_pkcs1_pem in Hsave.
    destruct (PublicKey._save_pkcs1_der der_encode self) as [der|ex] eqn:Hd;
      [|discriminate Hsave].
    cbn [rbind] in Hsave. apply Hpem in Hsave.
    unfold PublicKey._load_pkcs1_pem. rewrite Hsave. now apply Hder.
Qed.

(** X17: [load_pkcs1_openssl_pem] returns a key only from a [PUBLIC KEY]
    armor whose algorithm identifier is rsaEncryption and whose key bytes,
    the first one dropped, decode to that key; with any other identifier
    it raises [TypeError], whatever the key bytes are. *)
Theorem openssl_oid_checked (keyfile : bytes) :
  (forall k,
     PublicKey.load_pkcs1_openssl_pem der_decode der_decode_openssl load_pem
       keyfile = Ok k ->
     exists der key,
       load_pem keyfile "PUBLIC KEY" = Ok der
       /\ der_decode_openssl der = Ok ([1; 2; 840; 113549; 1; 1; 1], key)
       /\ der_decode (drop 1 key) = Ok (PublicKey.n k, PublicKey.e k))
  /\ (forall der oid key,
        load_pem keyfile "PUBLIC KEY" = Ok der ->
        der_decode_openssl der = Ok (oid, key) ->
        oid <> [1; 2; 840; 113549; 1; 1; 1] ->
        PublicKey.load_pkcs1_openssl_pem der_decode der_decode_openssl
          load_pem keyfile
        = Raise (TypeError
                   "This is not a DER-encoded OpenSSL-compatible public key")).
Proof.
  unfold PublicKey.load_pkcs1_openssl_pem, PublicKey.load_pkcs1_openssl_der,
    PublicKey._load_pkcs1_der, PublicKey.rsa_encryption_oid.
  split.
  - intros k.
    destruct (load_pem keyfile "PUBLIC KEY") as [der|ex]; [|discriminate].
    cbn [rbind].
    destruct (der_decode_openssl der) as [[oid key]|ex] eqn:Hssl;
      [|discriminate].
    cbn [rbind]. case_bool_decide as Hoid; [|discriminate]. cbn [negb].
    destruct (der_decode (drop 1 key)) as [[n e]|ex] eqn:Hkey;
      [|discriminate].
    cbn [rbind]. intros [= <-]. subst oid. exists der, key. auto.
  - intros der oid key -> Hdec Hoid. cbn [rbind]. rewrite Hdec. cbn [rbind].
    case_bool_decide; [contradiction|reflexivity].
Qed.
End Codec.

Lemma public_round_trip_witness :
  PublicKey._load_pkcs1_der (fun _ => Ok (2367317549, 65537)) []
  = Ok (PublicKey.mk 2367317549 65537).
Proof.
  apply (proj1 (public_round_trip (encoded [2367317549; 65537]) plain_pem
                  (fun _ => Ok (2367317549, 65537)) plain_pem quoted
                  (PublicKey.mk 2367317549 65537)
                  ltac:(intros n e der Hl; unfold encoded in Hl;
                        case_bool_decide as Heq; [|discriminate];
                        now injection Heq as -> ->)
                  ltac:(now intros der marker pem [= <-]))).
  reflexivity.
Defined.

Lemma openssl_oid_checked_witness :
  PublicKey.load_pkcs1_openssl_pem (fun _ => Ok (2367317549, 65537))
    (fun der => Ok ([1; 2; 840; 10040; 4; 1], der)) plain_pem []
  = Raise (TypeError "This is not a DER-encoded OpenSSL-compatible public key").
Proof.
  apply (proj2 (openssl_oid_checked (fun _ => Ok (2367317549, 65537))
                  (fun der => Ok ([1; 2; 840; 10040; 4; 1], der)) plain_pem
                  []) [] [1; 2; 840; 10040; 4; 1] [] eq_refl eq_refl).
  discriminate.
Defined.
End PublicCodec.
